(** * Resume Builder API (main.py): shallow embedding and verified properties

    The development follows main.py top-down:
    - Python text primitives used by the handlers (str as a list of code
      points, bytes as a list of bytes);
    - the heuristic generator [simple_ai_generate] and the [generate] handler;
    - the upload handler [extract_text];
    - the document store and the handlers [signin], [save_profile] and
      [get_profile], written in a small state-and-error monad. *)

From Stdlib Require Import NArith List String Ascii Strings.Byte Permutation Sorted Lia.
From Stdlib Require Import HexadecimalN HexadecimalFacts.
From stdpp Require Import base list gmap sets vector.

Open Scope N_scope.

(** ** Python text primitives *)

(** A Python [str] is a sequence of Unicode code points. *)
Definition str := list N.

(** ASCII literals of the source are written as Rocq strings. *)
Fixpoint pystr (s : string) : str :=
  match s with
  | EmptyString => []
  | String a r => N_of_ascii a :: pystr r
  end.
Arguments pystr : simpl never.

Definition in_range (lo hi c : N) : bool := (lo <=? c) && (c <=? hi).

(** [str.isspace] on one code point; [strip] and [split] with no argument
    use the same class. *)
Definition is_space (c : N) : bool :=
  in_range 0x09 0x0D c || in_range 0x1C 0x20 c || (c =? 0x85) || (c =? 0xA0)
  || (c =? 0x1680) || in_range 0x2000 0x200A c || (c =? 0x2028)
  || (c =? 0x2029) || (c =? 0x202F) || (c =? 0x205F) || (c =? 0x3000).

(** Line boundaries recognised by [str.splitlines]. *)
Definition is_linebreak (c : N) : bool :=
  in_range 0x0A 0x0D c || in_range 0x1C 0x1E c || (c =? 0x85)
  || (c =? 0x2028) || (c =? 0x2029).

Definition is_upper_ascii (c : N) : bool := in_range 0x41 0x5A c.
Definition is_lower_ascii (c : N) : bool := in_range 0x61 0x7A c.

(** The character class [[A-Za-z]] of the regular expression. *)
Definition is_ascii_letter (c : N) : bool := is_upper_ascii c || is_lower_ascii c.

Arguments is_space : simpl never.
Arguments is_linebreak : simpl never.
Arguments is_ascii_letter : simpl never.

Fixpoint lstrip (s : str) : str :=
  match s with
  | [] => []
  | c :: r => if is_space c then lstrip r else s
  end.

Definition rstrip (s : str) : str := rev (lstrip (rev s)).

(** [s.strip()] *)
Definition strip (s : str) : str := rstrip (lstrip s).

(** [s.splitlines()]: [cur] holds the current line, reversed.  A CR LF pair is
    one boundary, and a final empty line is not reported. *)
Fixpoint splitlines_from (cur s : str) : list str :=
  match s with
  | [] => match cur with [] => [] | _ => [rev cur] end
  | c :: r =>
      if is_linebreak c then
        match r with
        | c' :: r' =>
            if (c =? 0x0D) && (c' =? 0x0A)
            then rev cur :: splitlines_from [] r'
            else rev cur :: splitlines_from [] r
        | [] => rev cur :: splitlines_from [] r
        end
      else splitlines_from (c :: cur) r
  end.

Definition splitlines (s : str) : list str := splitlines_from [] s.

(** [s.split()]: maximal runs of non-whitespace code points. *)
Fixpoint split_from (cur s : str) : list str :=
  match s with
  | [] => match cur with [] => [] | _ => [rev cur] end
  | c :: r =>
      if is_space c then
        match cur with
        | [] => split_from [] r
        | _ => rev cur :: split_from [] r
        end
      else split_from (c :: cur) r
  end.

Definition split (s : str) : list str := split_from [] s.

(** [s.split(sep)] for a one-character separator: never empty. *)
Fixpoint split_on (sep : N) (s : str) : list str :=
  match s with
  | [] => [[]]
  | c :: r =>
      if c =? sep then [] :: split_on sep r
      else match split_on sep r with
           | w :: ws => (c :: w) :: ws
           | [] => [[c]]
           end
  end.

(** [sep.join(l)] *)
Fixpoint join (sep : str) (l : list str) : str :=
  match l with
  | [] => []
  | x :: r => match r with [] => x | _ => x ++ sep ++ join sep r end
  end.

(** [s.lower()], one code point at a time.  Besides A-Z, the only code
    points whose lowercase form contains an ASCII letter are U+0130 (to
    [i] followed by U+0307) and U+212A, the Kelvin sign (to [k]).  The
    program looks at lowered text only through the class [[A-Za-z]],
    through a search for a word of ASCII letters and through a comparison
    with an ASCII literal, so every other code point is kept as it is. *)
Definition lower_char (c : N) : str :=
  if is_upper_ascii c then [c + 32]
  else if c =? 0x130 then [0x69; 0x307]
  else if c =? 0x212A then [0x6B]
  else [c].

Definition lower (s : str) : str := flat_map lower_char s.

Fixpoint starts_with (p s : str) : bool :=
  match p, s with
  | [], _ => true
  | _ :: _, [] => false
  | a :: p', b :: s' => (a =? b) && starts_with p' s'
  end.

(** [needle in hay] on strings. *)
Fixpoint contains (needle hay : str) : bool :=
  starts_with needle hay ||
  match hay with
  | [] => false
  | _ :: r => contains needle r
  end.

(** ** The heuristic generator *)

(** Greedy match of [[A-Za-z]*] at the head of [s]: the matched text and
    what follows it. *)
Fixpoint letters_prefix (s : str) : str * str :=
  match s with
  | [] => ([], [])
  | c :: r =>
      if is_ascii_letter c
      then let '(m, rest) := letters_prefix r in (c :: m, rest)
      else ([], s)
  end.

(** One attempt of the pattern [[A-Za-z]{4,}] at the head of [s]. *)
Definition match_letters4 (s : str) : option (str * str) :=
  let '(m, rest) := letters_prefix s in
  if (4 <=? length m)%nat then Some (m, rest) else None.

(** [re.findall(r"[A-Za-z]{4,}", s)]: the scan tries the pattern at the
    current position; a match is reported and the scan resumes behind it,
    a failure moves the scan one code point ahead. *)
Fixpoint findall_fuel (fuel : nat) (s : str) : list str :=
  match fuel with
  | O => []
  | S f =>
      match match_letters4 s with
      | Some (m, rest) => m :: findall_fuel f rest
      | None => match s with
                | [] => []
                | _ :: r => findall_fuel f r
                end
      end
  end.

Definition re_findall_letters4 (s : str) : list str :=
  findall_fuel (S (length s)) s.

(** The dictionary [common] of [keywords]: Python dictionaries keep their
    keys in insertion order, and the order decides ties below. *)
Fixpoint dict_get (d : list (str * nat)) (w : str) (default : nat) : nat :=
  match d with
  | [] => default
  | (k, v) :: r => if decide (k = w) then v else dict_get r w default
  end.

Fixpoint dict_set (d : list (str * nat)) (w : str) (v : nat) : list (str * nat) :=
  match d with
  | [] => [(w, v)]
  | (k, x) :: r => if decide (k = w) then (k, v) :: r else (k, x) :: dict_set r w v
  end.

(** [for w in words: common[w] = common.get(w, 0) + 1] *)
Definition count_words (words : list str) : list (str * nat) :=
  fold_left (fun common w => dict_set common w (dict_get common w 0 + 1)%nat) words [].

(** [sorted(items, key=lambda x: x[1], reverse=True)]: Python's sort is
    stable, also with [reverse=True], so items of equal count keep their
    order.  Each item is put in front of the first item it is not smaller
    than, among the items that followed it. *)
Fixpoint insert_desc (x : str * nat) (l : list (str * nat)) : list (str * nat) :=
  match l with
  | [] => [x]
  | y :: r => if (snd y <=? snd x)%nat then x :: l else y :: insert_desc x r
  end.

Definition sorted_by_count_desc (items : list (str * nat)) : list (str * nat) :=
  foldr insert_desc [] items.

(** The inner function [keywords]. *)
Definition keywords (text : str) : list str :=
  fst <$> take 10 (sorted_by_count_desc (count_words (re_findall_letters4 (lower text)))).

Record GeneratedContent := {
  title : str;
  summary : str;
  bullets : list str;
  cover_letter : str;
  header : str;
  footer : str;
  advice : str
}.

(** [[l.strip() for l in text.splitlines() if l.strip()]] *)
Definition stripped_lines (text : str) : list str :=
  filter (fun l => l ≠ []) (strip <$> splitlines text).

Definition default_title : str := pystr "Professional Profile".

Definition summary_of (overlap : list str) : str :=
  pystr "Results-driven professional aligning closely with the role's priorities: "
  ++ join (pystr ", ") (take 6 overlap) ++ pystr ". "
  ++ pystr "Brings proven experience highlighted below and tailored precisely to the job description.".

Definition bullet_of (k line : str) : str :=
  pystr "Delivered " ++ k ++ pystr "-focused outcomes: " ++ take 140 line.

Definition fallback_bullet (um_keywords : list str) : str :=
  pystr "Accomplished key outcomes across " ++ join (pystr ", ") (take 5 um_keywords) ++ pystr ".".

Definition cover_letter_of (overlap : list str) : str :=
  pystr "Dear Hiring Manager," ++ [0x0A; 0x0A]
  ++ pystr "I'm excited to apply for this opportunity. After reviewing the job description, I curated the attached resume to emphasize the most relevant "
  ++ pystr "skills and outcomes, including " ++ join (pystr ", ") (take 6 overlap) ++ pystr ". "
  ++ pystr "I thrive in collaborative, fast-moving environments and would welcome the chance to contribute."
  ++ [0x0A; 0x0A] ++ pystr "Sincerely," ++ [0x0A] ++ pystr "Your Name".

Definition header_text : str := pystr "Impact-forward Resume".
Definition footer_text : str := pystr "Created with Flames Blue Resume Builder".

(** The advice text; U+2013 is the dash of its first range. *)
Definition advice_text : str :=
  pystr "Record a 60" ++ [0x2013]
  ++ pystr "90s Loom: start with a 10s intro (name, role), then 30s on a signature achievement, 20s on how it maps to the JD, "
  ++ pystr "and finish with a clear ask to connect. Smile, good lighting, and share 1 on-screen artifact (dashboard, code snippet, design).".

(** The three sets the generator iterates over. *)
Inductive set_site := JdKw | UmKw | Overlap.

(** The inner loop of the bullets: the first keyword found in the lowered
    line adds a bullet, as long as fewer than 8 were collected. *)
Fixpoint scan_keywords (ks : list str) (line : str) (bullets : list str) : list str :=
  match ks with
  | [] => bullets
  | k :: ks' =>
      if contains k (lower line) && (length bullets <? 8)%nat
      then bullets ++ [bullet_of k line]
      else scan_keywords ks' line bullets
  end.

Section Generator.

(** The iteration order of a Python set is not specified, and differs
    from one process to the next for sets of strings: [set_iter site s]
    is the order in which the set [s] built at [site] is listed. *)
Variable set_iter : set_site -> gset str -> list str.

Definition collect_bullets (jd_kw : gset str) (um_lines : list str) : list str :=
  fold_left (fun bullets line => scan_keywords (take 8 (set_iter JdKw jd_kw)) line bullets)
            (take 12 um_lines) [].

Definition simple_ai_generate (job_description user_material : str) : GeneratedContent :=
  let jd_lines := stripped_lines job_description in
  let um_lines := stripped_lines user_material in
  let title :=
    match jd_lines with
    | l0 :: _ => join (pystr " ") (take 6 (split l0))
    | [] => default_title
    end in
  let jd_kw : gset str := list_to_set (keywords job_description) in
  let um_kw : gset str := list_to_set (keywords user_material) in
  let overlap := set_iter Overlap (jd_kw ∩ um_kw) in
  let summary := summary_of overlap in
  let bullets := collect_bullets jd_kw um_lines in
  let bullets :=
    match bullets with
    | [] => [fallback_bullet (set_iter UmKw um_kw)]
    | _ => bullets
    end in
  {| title := title;
     summary := summary;
     bullets := bullets;
     cover_letter := cover_letter_of overlap;
     header := header_text;
     footer := footer_text;
     advice := advice_text |}.

End Generator.

(** ** Handlers: results and requests *)

(** What a handler gives back: a response body, or the [HTTPException] it
    raised, with its status code and detail. *)
Inductive result (A : Type) :=
| Ok (body : A)
| HTTPException (status_code : N) (detail : str).
Arguments Ok {A} body.
Arguments HTTPException {A} status_code detail.

(** Truth value of a string: only the empty string is false. *)
Definition truthy (s : str) : bool :=
  match s with
  | [] => false
  | _ :: _ => true
  end.

Record GenerateRequest := {
  gr_user_id : str;
  job_description : str;
  user_material : str
}.

Definition generate (set_iter : set_site -> gset str -> list str)
    (payload : GenerateRequest) : result GeneratedContent :=
  if negb (truthy (strip (job_description payload)))
     || negb (truthy (strip (user_material payload)))
  then HTTPException 400 (pystr "Both job description and user material are required")
  else Ok (simple_ai_generate set_iter (job_description payload) (user_material payload)).

(** ** Bytes, UTF-8 and hexadecimal text *)

Definition bytes := list byte.

#[global] Instance byte_eq_dec : EqDecision byte := Byte.byte_eq_dec.

Definition is_continuation (c : N) : bool := in_range 0x80 0xBF c.

(** [data.decode("utf-8", errors="ignore")].  The decoder rejects, as
    CPython does, a stray continuation byte, the start bytes C0, C1 and
    F5-FF, overlong forms, surrogates and code points above U+10FFFF.  A
    rejected sequence loses the bytes read before the offending one and
    decoding resumes at that byte; a sequence cut short by the end of the
    data is dropped. *)
Fixpoint decode_utf8_ignore (data : bytes) : str :=
  match data with
  | [] => []
  | b0 :: r0 =>
      let c0 := Byte.to_N b0 in
      if c0 <? 0x80 then c0 :: decode_utf8_ignore r0
      else if c0 <? 0xC2 then decode_utf8_ignore r0
      else if c0 <? 0xE0 then
        match r0 with
        | [] => []
        | b1 :: r1 =>
            let c1 := Byte.to_N b1 in
            if is_continuation c1
            then N.lor (N.shiftl (N.land c0 0x1F) 6) (N.land c1 0x3F)
                 :: decode_utf8_ignore r1
            else decode_utf8_ignore r0
        end
      else if c0 <? 0xF0 then
        match r0 with
        | [] => []
        | b1 :: r1 =>
            let c1 := Byte.to_N b1 in
            if negb (is_continuation c1)
               || (if c1 <? 0xA0 then c0 =? 0xE0 else c0 =? 0xED)
            then decode_utf8_ignore r0
            else
              match r1 with
              | [] => []
              | b2 :: r2 =>
                  let c2 := Byte.to_N b2 in
                  if is_continuation c2
                  then N.lor (N.shiftl (N.land c0 0x0F) 12)
                         (N.lor (N.shiftl (N.land c1 0x3F) 6) (N.land c2 0x3F))
                       :: decode_utf8_ignore r2
                  else decode_utf8_ignore r1
              end
        end
      else if c0 <? 0xF5 then
        match r0 with
        | [] => []
        | b1 :: r1 =>
            let c1 := Byte.to_N b1 in
            if negb (is_continuation c1)
               || (if c1 <? 0x90 then c0 =? 0xF0 else c0 =? 0xF4)
            then decode_utf8_ignore r0
            else
              match r1 with
              | [] => []
              | b2 :: r2 =>
                  let c2 := Byte.to_N b2 in
                  if negb (is_continuation c2) then decode_utf8_ignore r1
                  else
                    match r2 with
                    | [] => []
                    | b3 :: r3 =>
                        let c3 := Byte.to_N b3 in
                        if is_continuation c3
                        then N.lor (N.shiftl (N.land c0 0x07) 18)
                               (N.lor (N.shiftl (N.land c1 0x3F) 12)
                                  (N.lor (N.shiftl (N.land c2 0x3F) 6) (N.land c3 0x3F)))
                             :: decode_utf8_ignore r3
                        else decode_utf8_ignore r2
                    end
              end
        end
      else decode_utf8_ignore r0
  end.

(** [text.encode("utf-8")] for one code point below U+110000 that is not
    a surrogate. *)
Definition encode_utf8_char (c : N) : list N :=
  if c <? 0x80 then [c]
  else if c <? 0x800 then [N.lor 0xC0 (N.shiftr c 6); N.lor 0x80 (N.land c 0x3F)]
  else if c <? 0x10000 then
    [N.lor 0xE0 (N.shiftr c 12); N.lor 0x80 (N.land (N.shiftr c 6) 0x3F);
     N.lor 0x80 (N.land c 0x3F)]
  else
    [N.lor 0xF0 (N.shiftr c 18); N.lor 0x80 (N.land (N.shiftr c 12) 0x3F);
     N.lor 0x80 (N.land (N.shiftr c 6) 0x3F); N.lor 0x80 (N.land c 0x3F)].

Definition byte_of_N (n : N) : byte :=
  match Byte.of_N n with
  | Some b => b
  | None => x00
  end.

Definition encode_utf8 (s : str) : bytes :=
  byte_of_N <$> flat_map encode_utf8_char s.

(** A Unicode scalar value: what a well-formed text holds. *)
Definition is_scalar (c : N) : bool :=
  (c <? 0xD800) || (in_range 0xE000 0x10FFFF c).

(** The lowercase hexadecimal digit of a value below 16. *)
Definition hex_digit (n : N) : N := if n <? 10 then 0x30 + n else 0x57 + n.

(** The value of a hexadecimal digit, of either case. *)
Definition hex_value (c : N) : option N :=
  if in_range 0x30 0x39 c then Some (c - 0x30)
  else if in_range 0x61 0x66 c then Some (c - 0x57)
  else if in_range 0x41 0x46 c then Some (c - 0x37)
  else None.

Definition is_lower_hex (c : N) : bool := in_range 0x30 0x39 c || in_range 0x61 0x66 c.

(** [binascii.hexlify] of one byte. *)
Definition hex_of_byte (b : byte) : str :=
  [hex_digit (Byte.to_N b / 16); hex_digit (Byte.to_N b mod 16)].

Definition byte_of_hex (hi lo : N) : option byte :=
  match hex_value hi, hex_value lo with
  | Some h, Some l => Byte.of_N (16 * h + l)
  | _, _ => None
  end.

(** The digits of [format(n, "x")]. *)
Fixpoint hex_chars (u : Hexadecimal.uint) : str :=
  match u with
  | Hexadecimal.Nil => []
  | Hexadecimal.D0 r => 0x30 :: hex_chars r
  | Hexadecimal.D1 r => 0x31 :: hex_chars r
  | Hexadecimal.D2 r => 0x32 :: hex_chars r
  | Hexadecimal.D3 r => 0x33 :: hex_chars r
  | Hexadecimal.D4 r => 0x34 :: hex_chars r
  | Hexadecimal.D5 r => 0x35 :: hex_chars r
  | Hexadecimal.D6 r => 0x36 :: hex_chars r
  | Hexadecimal.D7 r => 0x37 :: hex_chars r
  | Hexadecimal.D8 r => 0x38 :: hex_chars r
  | Hexadecimal.D9 r => 0x39 :: hex_chars r
  | Hexadecimal.Da r => 0x61 :: hex_chars r
  | Hexadecimal.Db r => 0x62 :: hex_chars r
  | Hexadecimal.Dc r => 0x63 :: hex_chars r
  | Hexadecimal.Dd r => 0x64 :: hex_chars r
  | Hexadecimal.De r => 0x65 :: hex_chars r
  | Hexadecimal.Df r => 0x66 :: hex_chars r
  end.

Definition format_x (n : N) : str := hex_chars (N.to_hex_uint n).

(** ["%0<width>x" % n]: zeros on the left up to [width] characters. *)
Definition format_0x (width : nat) (n : N) : str :=
  let digits := format_x n in
  replicate (width - length digits) 0x30 ++ digits.

(** ** Identifiers: bson.ObjectId and uuid.UUID *)

(** An [ObjectId] holds its bytes ([oid.binary]). *)
Definition ObjectId := bytes.

(** The ObjectId that [ObjectId()] generates, as the driver does for the
    [_id] of a document inserted without one: 12 bytes. *)
Definition ObjectId12 := vec byte 12.

#[global] Instance ObjectId12_eq_dec : EqDecision ObjectId12 := @vec_dec byte byte_eq_dec 12.

(** [str(oid)], that is [binascii.hexlify(oid.binary)]: two lowercase
    hexadecimal digits for each byte. *)
Definition oid_str (oid : ObjectId) : str := flat_map hex_of_byte oid.

(** The white space [bytes.fromhex] skips: tab, line feed, vertical tab,
    form feed, carriage return and space. *)
Definition is_ascii_space (c : N) : bool := in_range 0x09 0x0D c || (c =? 0x20).

(** [bytes.fromhex(s)]: two hexadecimal digits for each byte, of either
    case; white space before a byte and at the end is skipped, white
    space between the two digits of a byte is not.  [None] stands for
    [ValueError]. *)
Fixpoint bytes_fromhex (s : str) : option bytes :=
  match s with
  | [] => Some []
  | c :: r =>
      if is_ascii_space c then bytes_fromhex r
      else
        match r with
        | [] => None
        | lo :: r' =>
            match byte_of_hex c lo with
            | Some b =>
                match bytes_fromhex r' with
                | Some bs => Some (b :: bs)
                | None => None
                end
            | None => None
            end
        end
  end.

(** [ObjectId(s)] for a string [s]: a string of 24 characters that
    [bytes.fromhex] accepts is accepted, and the ObjectId holds the bytes
    read, which are fewer than 12 when the string has white space;
    anything else raises [InvalidId] ([None]). *)
Definition ObjectId_of_str (s : str) : option ObjectId :=
  if bool_decide (length s = 24%nat) then bytes_fromhex s else None.

(** [uuid.uuid4()]: 16 random bytes read as an integer, with the variant
    and version bits forced.  A UUID is held as its [int]. *)
Definition uuid4_of (random_bytes : N) : N :=
  let int := random_bytes mod 2 ^ 128 in
  let int := N.ldiff int (N.shiftl 0xc000 48) in
  let int := N.lor int (N.shiftl 0x8000 48) in
  let int := N.ldiff int (N.shiftl 0xf000 64) in
  N.lor int (N.shiftl 4 76).

(** [u.hex], that is ["%032x" % u.int]. *)
Definition uuid_hex (u : N) : str := format_0x 32 u.

(** [str(u)] *)
Definition uuid_str (u : N) : str :=
  let hex := uuid_hex u in
  take 8 hex ++ pystr "-" ++ take 4 (drop 8 hex) ++ pystr "-"
  ++ take 4 (drop 12 hex) ++ pystr "-" ++ take 4 (drop 16 hex) ++ pystr "-"
  ++ drop 20 hex.

(** ** The document store *)

(** A [datetime], as a point on the clock. *)
Definition datetime := N.

(** The [_id] of a stored document is an ObjectId of the driver. *)
Record UserDoc := {
  user_oid : ObjectId12;
  user_email : str;
  user_name : option str;
  user_created_at : datetime;
  user_updated_at : datetime
}.

Record SessionDoc := {
  session_oid : ObjectId12;
  session_user_id : ObjectId;
  session_token : str;
  session_created_at : datetime
}.

Record ProfileDoc := {
  profile_oid : ObjectId12;
  profile_user_id : ObjectId;
  profile_content : GeneratedContent;
  profile_loom_url : option str;
  profile_photo_url : option str;
  profile_share_slug : str;
  profile_created_at : datetime;
  profile_updated_at : datetime
}.

(** The three collections.  Documents are kept in insertion order, the
    order in which [find_one] looks for a match. *)
Record Store := {
  users : list UserDoc;
  sessions : list SessionDoc;
  profiles : list ProfileDoc
}.

(** A source of values the program does not compute: the [n]-th value is
    handed out at the [n]-th request. *)
Record Supply (A : Type) := {
  supply_values : nat -> A;
  supply_pos : nat
}.
Arguments supply_values {A} _ _.
Arguments supply_pos {A} _.

Definition supply_peek {A} (s : Supply A) (k : nat) : A :=
  supply_values s (supply_pos s + k).

Definition supply_next {A} (s : Supply A) : Supply A :=
  {| supply_values := supply_values s; supply_pos := S (supply_pos s) |}.

(** What the handlers read and change: the global [db] (absent when the
    database is not configured), the operating system's random bytes, the
    clock, the driver's ObjectId generator, the names [tempfile] draws
    (directory, prefix and random part) and the temporary files on disk,
    each with its path and content, in the order of their creation. *)
Record World := {
  db : option Store;
  w_random : Supply N;
  w_clock : Supply datetime;
  w_oids : Supply ObjectId12;
  w_tmpnames : Supply str;
  w_tmpfiles : list (str * bytes)
}.

(** ** A state and exception monad for the handlers *)

Definition M (A : Type) : Type := World -> result A * World.

Definition ret {A} (a : A) : M A := fun w => (Ok a, w).

Definition bind {A B} (m : M A) (k : A -> M B) : M B :=
  fun w =>
    match m w with
    | (Ok a, w') => k a w'
    | (HTTPException c d, w') => (HTTPException c d, w')
    end.

Definition raise {A} (status_code : N) (detail : str) : M A :=
  fun w => (HTTPException status_code detail, w).

Notation "x <- m ;; k" := (bind m (fun x => k))
  (at level 100, m at next level, right associativity).

(** [if db is None: raise HTTPException(status_code=500, ...)] *)
Definition require_db : M Store :=
  fun w =>
    match db w with
    | None => (HTTPException 500 (pystr "Database not configured"), w)
    | Some st => (Ok st, w)
    end.

Definition set_store (st : Store) : M unit :=
  fun w => (Ok tt, {| db := Some st; w_random := w_random w;
                      w_clock := w_clock w; w_oids := w_oids w;
                      w_tmpnames := w_tmpnames w; w_tmpfiles := w_tmpfiles w |}).

(** [datetime.now(timezone.utc)] *)
Definition now : M datetime :=
  fun w => (Ok (supply_peek (w_clock w) 0),
            {| db := db w; w_random := w_random w;
               w_clock := supply_next (w_clock w); w_oids := w_oids w;
               w_tmpnames := w_tmpnames w; w_tmpfiles := w_tmpfiles w |}).

(** [uuid.uuid4()] *)
Definition uuid4 : M N :=
  fun w => (Ok (uuid4_of (supply_peek (w_random w) 0)),
            {| db := db w; w_random := supply_next (w_random w);
               w_clock := w_clock w; w_oids := w_oids w;
               w_tmpnames := w_tmpnames w; w_tmpfiles := w_tmpfiles w |}).

(** The [_id] the driver gives a document inserted without one. *)
Definition new_object_id : M ObjectId12 :=
  fun w => (Ok (supply_peek (w_oids w) 0),
            {| db := db w; w_random := w_random w;
               w_clock := w_clock w; w_oids := supply_next (w_oids w);
               w_tmpnames := w_tmpnames w; w_tmpfiles := w_tmpfiles w |}).

(** [tempfile.NamedTemporaryFile(delete=False, suffix=suffix)], written
    with [data], flushed and closed: a file of a new name that ends in
    [suffix] holds [data] and stays on disk.  The result is [tmp.name]. *)
Definition NamedTemporaryFile (suffix : str) (data : bytes) : M str :=
  fun w =>
    let name := supply_peek (w_tmpnames w) 0 ++ suffix in
    (Ok name,
     {| db := db w; w_random := w_random w;
        w_clock := w_clock w; w_oids := w_oids w;
        w_tmpnames := supply_next (w_tmpnames w);
        w_tmpfiles := w_tmpfiles w ++ [(name, data)] |}).

(** An exception no handler catches: the framework answers 500. *)
Definition unhandled {A} : M A := raise 500 (pystr "Internal Server Error").

(** [db["user"].find_one({"email": email})] *)
Definition find_one_user (email : str) : M (option UserDoc) :=
  st <- require_db ;;
  ret (List.find (fun u => bool_decide (user_email u = email)) (users st)).

(** [db["user"].insert_one(doc)], giving [inserted_id]: the driver draws
    the [_id] and the document is added at the end of the collection. *)
Definition insert_one_user (email : str) (name : option str)
    (created_at updated_at : datetime) : M ObjectId12 :=
  oid <- new_object_id ;;
  st <- require_db ;;
  _ <- set_store {| users := users st ++ [{| user_oid := oid; user_email := email;
                                             user_name := name;
                                             user_created_at := created_at;
                                             user_updated_at := updated_at |}];
                    sessions := sessions st; profiles := profiles st |} ;;
  ret oid.

(** The first document whose [_id] equals [oid] (two ObjectIds are equal
    when their bytes are) gets the new fields. *)
Fixpoint update_first_user (oid : ObjectId) (name : option str)
    (updated_at : datetime) (l : list UserDoc) : list UserDoc :=
  match l with
  | [] => []
  | u :: r =>
      if bool_decide (vec_to_list (user_oid u) = oid)
      then {| user_oid := user_oid u; user_email := user_email u; user_name := name;
              user_created_at := user_created_at u; user_updated_at := updated_at |} :: r
      else u :: update_first_user oid name updated_at r
  end.

(** [db["user"].update_one({"_id": oid}, {"$set": {"name": ..., "updated_at": ...}})] *)
Definition update_one_user (oid : ObjectId) (name : option str)
    (updated_at : datetime) : M unit :=
  st <- require_db ;;
  set_store {| users := update_first_user oid name updated_at (users st);
               sessions := sessions st; profiles := profiles st |}.

(** [db["session"].insert_one(doc)] *)
Definition insert_one_session (user_id : ObjectId) (token : str)
    (created_at : datetime) : M ObjectId12 :=
  oid <- new_object_id ;;
  st <- require_db ;;
  _ <- set_store {| users := users st;
                    sessions := sessions st ++ [{| session_oid := oid;
                                                   session_user_id := user_id;
                                                   session_token := token;
                                                   session_created_at := created_at |}];
                    profiles := profiles st |} ;;
  ret oid.

(** [db["profile"].insert_one(doc)] *)
Definition insert_one_profile (user_id : ObjectId) (content : GeneratedContent)
    (loom_url photo_url : option str) (share_slug : str)
    (created_at updated_at : datetime) : M ObjectId12 :=
  oid <- new_object_id ;;
  st <- require_db ;;
  _ <- set_store {| users := users st; sessions := sessions st;
                    profiles := profiles st ++ [{| profile_oid := oid;
                                                   profile_user_id := user_id;
                                                   profile_content := content;
                                                   profile_loom_url := loom_url;
                                                   profile_photo_url := photo_url;
                                                   profile_share_slug := share_slug;
                                                   profile_created_at := created_at;
                                                   profile_updated_at := updated_at |}] |} ;;
  ret oid.

(** [db["profile"].find_one({"share_slug": slug})] *)
Definition find_one_profile (slug : str) : M (option ProfileDoc) :=
  st <- require_db ;;
  ret (List.find (fun p => bool_decide (profile_share_slug p = slug)) (profiles st)).

(** ** The handlers of the store *)

Record SignInRequest := {
  email : str;
  name : option str
}.

Record SignInResponse := {
  user_id : str;
  token : str
}.

(** [a or b] where [a] is an optional string: [None] and the empty
    string are false. *)
Definition or_else (a b : option str) : option str :=
  match a with
  | Some (_ :: _) => a
  | _ => b
  end.

(** [ObjectId(s)] outside any [try]. *)
Definition ObjectId_or_raise (s : str) : M ObjectId :=
  match ObjectId_of_str s with
  | Some oid => ret oid
  | None => unhandled
  end.

Definition signin (payload : SignInRequest) : M SignInResponse :=
  _ <- require_db ;;
  user <- find_one_user (email payload) ;;
  user_id <-
    match user with
    | None =>
        let name := or_else (name payload)
                            (Some (hd [] (split_on 0x40 (email payload)))) in
        created_at <- now ;;
        updated_at <- now ;;
        inserted_id <- insert_one_user (email payload) name created_at updated_at ;;
        ret (oid_str inserted_id)
    | Some user =>
        let user_id := oid_str (user_oid user) in
        oid <- ObjectId_or_raise user_id ;;
        updated_at <- now ;;
        _ <- update_one_user oid (or_else (name payload) (user_name user)) updated_at ;;
        ret user_id
    end ;;
  u <- uuid4 ;;
  let token := uuid_str u in
  oid <- ObjectId_or_raise user_id ;;
  created_at <- now ;;
  _ <- insert_one_session oid token created_at ;;
  ret {| user_id := user_id; token := token |}.

Record SaveProfileRequest := {
  sp_user_id : str;
  content : GeneratedContent;
  loom_url : option str;
  photo_url : option str
}.

Record SaveProfileResponse := {
  profile_id : str;
  share_slug : str
}.

Definition save_profile (payload : SaveProfileRequest) : M SaveProfileResponse :=
  _ <- require_db ;;
  match ObjectId_of_str (sp_user_id payload) with
  | None => raise 400 (pystr "Invalid user_id")
  | Some user_oid =>
      u <- uuid4 ;;
      let share_slug := take 10 (uuid_hex u) in
      created_at <- now ;;
      updated_at <- now ;;
      inserted_id <- insert_one_profile user_oid (content payload) (loom_url payload)
                       (photo_url payload) share_slug created_at updated_at ;;
      ret {| profile_id := oid_str inserted_id; share_slug := share_slug |}
  end.

(** The document [get_profile] returns: the stored fields, with both
    identifiers as strings. *)
Record ProfileView := {
  pv_id : str;
  pv_user_id : str;
  pv_content : GeneratedContent;
  pv_loom_url : option str;
  pv_photo_url : option str;
  pv_share_slug : str;
  pv_created_at : datetime;
  pv_updated_at : datetime
}.

Definition get_profile (slug : str) : M ProfileView :=
  _ <- require_db ;;
  doc <- find_one_profile slug ;;
  match doc with
  | None => raise 404 (pystr "Profile not found")
  | Some doc =>
      ret {| pv_id := oid_str (profile_oid doc);
             pv_user_id := oid_str (profile_user_id doc);
             pv_content := profile_content doc;
             pv_loom_url := profile_loom_url doc;
             pv_photo_url := profile_photo_url doc;
             pv_share_slug := profile_share_slug doc;
             pv_created_at := profile_created_at doc;
             pv_updated_at := profile_updated_at doc |}
  end.

(** ** The upload handler *)

Record UploadFile := {
  filename : option str;
  file_bytes : bytes
}.

(** The optional parser packages.  [PdfReader] and [docx] are [None] when
    the import failed.  A parser raises (with the text of its exception)
    or gives the texts found: for a PDF, read from memory, one entry per
    page, [None] for a page whose [extract_text] raised and the text
    otherwise (a page without text gives the empty text); for a DOCX,
    read from the file of the given path, which holds the given bytes,
    the paragraphs. *)
Record Parsers := {
  PdfReader : option (bytes -> str + list (option str));
  docx : option (str -> bytes -> str + list str)
}.

Record ExtractResponse := { text : str }.

Definition nl : str := [0x0A].

Definition extract_text (parsers : Parsers) (file : UploadFile) : M ExtractResponse :=
  _ <- require_db ;;
  let filename := match filename file with Some f => f | None => [] end in
  let ext := lower (List.last (split_on 0x2E filename) []) in
  if bool_decide (ext = pystr "pdf") then
    match PdfReader parsers with
    | None => raise 400 (pystr "PDF support not available")
    | Some reader =>
        match reader (file_bytes file) with
        | inl e => raise 400 (pystr "Failed to read file: " ++ take 120 e)
        | inr pages =>
            let texts := omap id pages in
            ret {| text := strip (join nl texts) |}
        end
    end
  else if bool_decide (ext = pystr "docx") || bool_decide (ext = pystr "doc") then
    match docx parsers with
    | None => raise 400 (pystr "DOCX support not available")
    | Some document =>
        tmp_name <- NamedTemporaryFile (pystr ".docx") (file_bytes file) ;;
        match document tmp_name (file_bytes file) with
        | inl e => raise 400 (pystr "Failed to read file: " ++ take 120 e)
        | inr paragraphs => ret {| text := strip (join nl paragraphs) |}
        end
    end
  else
    ret {| text := decode_utf8_ignore (file_bytes file) |}.

(** ** The root and the diagnostic handlers *)

Record RootResponse := { message : str }.

Definition read_root : RootResponse :=
  {| message := pystr "Resume Builder API running" |}.

(** What [test_database] reads besides the global [db]: two variables of
    the process environment, and the answer of the server to
    [db.list_collection_names()], which raises (with the text of its
    exception) or gives the names. *)
Record Deployment := {
  DATABASE_URL : option str;
  DATABASE_NAME : option str;
  list_collection_names : str + list str
}.

(** Truth value of [os.getenv(name)]: unset and empty are false. *)
Definition getenv_truthy (v : option str) : bool :=
  match v with
  | Some (_ :: _) => true
  | _ => false
  end.

Record TestResponse := {
  backend : str;
  database : str;
  database_url : option str;
  database_name : option str;
  connection_status : str;
  collections : list str
}.

Definition check_mark : str := [0x2705].
Definition cross_mark : str := [0x274C].
Definition warning_sign : str := [0x26A0; 0xFE0F].

Definition set_or_not (v : option str) : str :=
  if getenv_truthy v then check_mark ++ pystr " Set" else cross_mark ++ pystr " Not Set".

(** [test_database]: the response starts from its defaults and is updated
    field by field.  Nothing in the outer [try] raises besides the call
    that has its own handler, so the outer handler is never entered. *)
Definition test_database (env : Deployment) : M TestResponse :=
  fun w =>
    let response :=
      {| backend := check_mark ++ pystr " Running";
         database := cross_mark ++ pystr " Not Available";
         database_url := None;
         database_name := None;
         connection_status := pystr "Not Connected";
         collections := [] |} in
    let response :=
      match db w with
      | Some _ =>
          let response :=
            {| backend := backend response;
               database := check_mark ++ pystr " Available";
               database_url := Some (set_or_not (DATABASE_URL env));
               database_name := Some (set_or_not (DATABASE_NAME env));
               connection_status := pystr "Connected";
               collections := collections response |} in
          match list_collection_names env with
          | inr names =>
              {| backend := backend response;
                 database := check_mark ++ pystr " Connected & Working";
                 database_url := database_url response;
                 database_name := database_name response;
                 connection_status := connection_status response;
                 collections := take 10 names |}
          | inl e =>
              {| backend := backend response;
                 database := warning_sign ++ pystr " Connected but Error: " ++ take 50 e;
                 database_url := database_url response;
                 database_name := database_name response;
                 connection_status := connection_status response;
                 collections := collections response |}
          end
      | None =>
          {| backend := backend response;
             database := warning_sign ++ pystr " Available but not initialized";
             database_url := database_url response;
             database_name := database_name response;
             connection_status := connection_status response;
             collections := collections response |}
      end in
    (Ok response, w).

(** * Vocabulary of the properties *)

(** ** Texts *)

(** The text is empty or holds whitespace only. *)
Definition blank (s : str) : Prop := Forall (fun c => is_space c = true) s.

#[global] Instance blank_dec s : Decision (blank s).
Proof. unfold blank. apply Forall_dec. intros c. apply _. Defined.

(** [blank], as a test. *)
Definition blankb (s : str) : bool := forallb is_space s.

(** The first line of a text that is not blank, as [splitlines] cuts it. *)
Definition first_nonblank_line (text : str) : option str :=
  List.find (fun l => negb (blankb l)) (splitlines text).

(** A token: not empty, and free of whitespace. *)
Definition is_token (w : str) : Prop := w ≠ [] /\ Forall (fun c => is_space c = false) w.

(** ** Keywords *)

(** The text begins with an ASCII letter. *)
Definition starts_with_letter (s : str) : bool :=
  match s with
  | c :: _ => is_ascii_letter c
  | [] => false
  end.

(** The maximal runs of ASCII letters of a text, in order. *)
Fixpoint letter_runs (s : str) : list str :=
  match s with
  | [] => []
  | c :: r =>
      if is_ascii_letter c then
        if starts_with_letter r then
          match letter_runs r with
          | w :: ws => (c :: w) :: ws
          | [] => [[c]]
          end
        else [c] :: letter_runs r
      else letter_runs r
  end.

(** [runs_of s ws]: [s] is cut into the runs [ws] of letters, each bounded
    on both sides by a code point that is no letter or by an end of [s]. *)
Inductive runs_of : str -> list str -> Prop :=
| runs_of_nil : runs_of [] []
| runs_of_skip c s ws :
    is_ascii_letter c = false -> runs_of s ws -> runs_of (c :: s) ws
| runs_of_run w s ws :
    w ≠ [] -> Forall (fun c => is_ascii_letter c = true) w ->
    starts_with_letter s = false ->
    runs_of s ws -> runs_of (w ++ s) (w :: ws).

(** How often [w] occurs among the words. *)
Definition occurrences (w : str) (ws : list str) : nat :=
  length (filter (fun v => v = w) ws).

(** The distinct words, in the order of their first occurrence. *)
Fixpoint first_seen (ws : list str) : list str :=
  match ws with
  | [] => []
  | w :: r => w :: filter (fun v => v ≠ w) (first_seen r)
  end.

(** Each distinct word with its frequency, in first-seen order. *)
Definition frequency_table (ws : list str) : list (str * nat) :=
  (fun w => (w, occurrences w ws)) <$> first_seen ws.

(** More frequent first. *)
Definition count_ge (a b : str * nat) : Prop := (snd b <= snd a)%nat.

(** ** Generated content *)

(** No line of the user material contains a keyword of the job
    description. *)
Definition no_keyword_match (jd um : str) : Prop :=
  forall line k, line ∈ stripped_lines um -> k ∈ keywords jd ->
                 contains k (lower line) = false.

(** [no_keyword_match], as a test. *)
Definition no_keyword_matchb (jd um : str) : bool :=
  forallb (fun line => forallb (fun k => negb (contains k (lower line))) (keywords jd))
          (stripped_lines um).

(** The keywords both texts have. *)
Definition overlap_set (jd um : str) : gset str :=
  list_to_set (keywords jd) ∩ list_to_set (keywords um).

(** The summary around the keywords it names. *)
Definition summary_template (named : list str) : str :=
  pystr "Results-driven professional aligning closely with the role's priorities: "
  ++ join (pystr ", ") named ++ pystr ". "
  ++ pystr "Brings proven experience highlighted below and tailored precisely to the job description.".

(** The cover letter around the keywords it names. *)
Definition cover_letter_template (named : list str) : str :=
  pystr "Dear Hiring Manager," ++ [0x0A; 0x0A]
  ++ pystr "I'm excited to apply for this opportunity. After reviewing the job description, I curated the attached resume to emphasize the most relevant "
  ++ pystr "skills and outcomes, including " ++ join (pystr ", ") named ++ pystr ". "
  ++ pystr "I thrive in collaborative, fast-moving environments and would welcome the chance to contribute."
  ++ [0x0A; 0x0A] ++ pystr "Sincerely," ++ [0x0A] ++ pystr "Your Name".

(** The listing order of stdpp's [elements], one of the possible orders. *)
Definition elements_order : set_site -> gset str -> list str :=
  fun _ s => elements s.

(** A text with 7 keywords, each met once. *)
Definition seven_keywords : str :=
  pystr "python django postgres docker kubernetes terraform linux".

(** A user material without any of the [seven_keywords]. *)
Definition gardening : str :=
  pystr "Grew tomatoes and roses" ++ nl ++ pystr "Built a greenhouse".

(** ** Uploads *)

(** The full stop. *)
Definition dot : N := 0x2E.

(** What follows the last dot of a name; the whole name when it has no
    dot. *)
Fixpoint after_last_dot (s : str) : str :=
  match s with
  | [] => []
  | c :: r =>
      if bool_decide (dot ∈ r) then after_last_dot r
      else if c =? dot then r else s
  end.

(** The extension of an upload: lowercased, and empty without a name. *)
Definition extension_of (filename : option str) : str :=
  lower (after_last_dot (default [] filename)).

(** The text ["hello\nworld"]. *)
Definition hello_world : str := pystr "hello" ++ nl ++ pystr "world".

(** An upload of the UTF-8 bytes of a text. *)
Definition upload (name : string) (t : str) : UploadFile :=
  {| filename := Some (pystr name); file_bytes := encode_utf8 t |}.

(** Neither parser package is installed. *)
Definition no_parsers : Parsers := {| PdfReader := None; docx := None |}.

(** A DOCX parser that refuses data that is no ZIP archive. *)
Definition zip_only_parsers : Parsers :=
  {| PdfReader := None;
     docx := Some (fun _ data =>
               match data with
               | x50 :: x4b :: _ => inr []
               | _ => inl (pystr "File is not a zip file")
               end) |}.

(** A DOCX parser that refuses a file that is no ZIP archive, naming its
    path. *)
Definition path_naming_parsers : Parsers :=
  {| PdfReader := None;
     docx := Some (fun path data =>
               match data with
               | x50 :: x4b :: _ => inr []
               | _ => inl (pystr "Package not found at '" ++ path ++ pystr "'")
               end) |}.

(** ** Identifiers *)

(** The digit a character stands for in [int(s, 16)]. *)
Fixpoint hex_uint (s : str) : Hexadecimal.uint :=
  match s with
  | [] => Hexadecimal.Nil
  | c :: r =>
      let u := hex_uint r in
      match hex_value c with
      | Some 1 => Hexadecimal.D1 u | Some 2 => Hexadecimal.D2 u
      | Some 3 => Hexadecimal.D3 u | Some 4 => Hexadecimal.D4 u
      | Some 5 => Hexadecimal.D5 u | Some 6 => Hexadecimal.D6 u
      | Some 7 => Hexadecimal.D7 u | Some 8 => Hexadecimal.D8 u
      | Some 9 => Hexadecimal.D9 u | Some 10 => Hexadecimal.Da u
      | Some 11 => Hexadecimal.Db u | Some 12 => Hexadecimal.Dc u
      | Some 13 => Hexadecimal.Dd u | Some 14 => Hexadecimal.De u
      | Some 15 => Hexadecimal.Df u | _ => Hexadecimal.D0 u
      end
  end.

(** [int(s, 16)] *)
Definition int_of_hex (s : str) : N := N.of_hex_uint (hex_uint s).

(** ** The store *)

(** The filter [{"email": e}]. *)
Definition has_email (e : str) (u : UserDoc) : bool := bool_decide (user_email u = e).

(** The filter [{"share_slug": slug}]. *)
Definition has_slug (slug : str) (p : ProfileDoc) : bool :=
  bool_decide (profile_share_slug p = slug).

(** No stored profile has this slug. *)
Definition slug_unused (slug : str) (st : Store) : Prop :=
  Forall (fun p => profile_share_slug p ≠ slug) (profiles st).

(** The view [get_profile] gives of a stored profile. *)
Definition view_of (doc : ProfileDoc) : ProfileView :=
  {| pv_id := oid_str (profile_oid doc);
     pv_user_id := oid_str (profile_user_id doc);
     pv_content := profile_content doc;
     pv_loom_url := profile_loom_url doc;
     pv_photo_url := profile_photo_url doc;
     pv_share_slug := profile_share_slug doc;
     pv_created_at := profile_created_at doc;
     pv_updated_at := profile_updated_at doc |}.

(** The slug [save_profile] draws in the world [w]. *)
Definition next_slug (w : World) : str :=
  take 10 (uuid_hex (uuid4_of (supply_peek (w_random w) 0))).

(** The profile [save_profile] stores in the world [w]. *)
Definition new_profile (payload : SaveProfileRequest) (user_oid : ObjectId) (w : World)
  : ProfileDoc :=
  {| profile_oid := supply_peek (w_oids w) 0;
     profile_user_id := user_oid;
     profile_content := content payload;
     profile_loom_url := loom_url payload;
     profile_photo_url := photo_url payload;
     profile_share_slug := next_slug w;
     profile_created_at := supply_peek (w_clock w) 0;
     profile_updated_at := supply_peek (w_clock w) 1 |}.

(** The world after [save_profile] stored [doc]. *)
Definition world_after_save (w : World) (st : Store) (doc : ProfileDoc) : World :=
  {| db := Some {| users := users st; sessions := sessions st;
                   profiles := profiles st ++ [doc] |};
     w_random := supply_next (w_random w);
     w_clock := supply_next (supply_next (w_clock w));
     w_oids := supply_next (w_oids w);
     w_tmpnames := w_tmpnames w;
     w_tmpfiles := w_tmpfiles w |}.

(** A store without documents. *)
Definition empty_store : Store := {| users := []; sessions := []; profiles := [] |}.

(** The ObjectId of 11 zero bytes and a last byte, [n] modulo 256. *)
Definition numbered_oid (n : nat) : ObjectId12 :=
  vreplicate 11 x00 +++ [# byte_of_N (N.of_nat n mod 256)].

(** The ObjectId of 12 zero bytes. *)
Definition zero_oid : ObjectId12 := numbered_oid 0.

(** The name [tempfile] draws at its [n]-th call. *)
Definition numbered_tmpname (n : nat) : str :=
  pystr "/tmp/tmp" ++ format_0x 8 (N.of_nat n).

(** A world whose random source and clock count up from 0, whose ObjectId
    generator counts up from 1, and without temporary files. *)
Definition sample_world (database : option Store) : World :=
  {| db := database;
     w_random := {| supply_values := fun i => N.of_nat i; supply_pos := 0 |};
     w_clock := {| supply_values := fun i => N.of_nat i; supply_pos := 0 |};
     w_oids := {| supply_values := fun i => numbered_oid (S i); supply_pos := 0 |};
     w_tmpnames := {| supply_values := numbered_tmpname; supply_pos := 0 |};
     w_tmpfiles := [] |}.

(** A world like [sample_world] whose random source gives the same
    bytes at every request. *)
Definition repeating_world (database : option Store) : World :=
  {| db := database;
     w_random := {| supply_values := fun _ => 7; supply_pos := 0 |};
     w_clock := {| supply_values := fun i => N.of_nat i; supply_pos := 0 |};
     w_oids := {| supply_values := fun i => numbered_oid (S i); supply_pos := 0 |};
     w_tmpnames := {| supply_values := numbered_tmpname; supply_pos := 0 |};
     w_tmpfiles := [] |}.

(** A content with the given title. *)
Definition sample_content (t : string) : GeneratedContent :=
  {| title := pystr t; summary := []; bullets := [pystr "Delivered outcomes"];
     cover_letter := []; header := header_text; footer := footer_text;
     advice := advice_text |}.

(** A valid [user_id]. *)
Definition sample_user_id : str := pystr "0123456789abcdef01234567".

(** The ObjectId that [sample_user_id] stands for. *)
Definition sample_user_oid : ObjectId :=
  [x01; x23; x45; x67; x89; xab; xcd; xef; x01; x23; x45; x67].

(** A [user_id] that [ObjectId] accepts although it has white space: 24
    characters, 11 bytes. *)
Definition spaced_user_id : str := pystr "01  23456789abcdef012345".

(** The ObjectId that [spaced_user_id] stands for. *)
Definition spaced_user_oid : ObjectId :=
  [x01; x23; x45; x67; x89; xab; xcd; xef; x01; x23; x45].

(** A request to save [sample_content t] for [sample_user_id]. *)
Definition sample_request (t : string) : SaveProfileRequest :=
  {| sp_user_id := sample_user_id; content := sample_content t;
     loom_url := None; photo_url := None |}.

(** A request to save a profile for [spaced_user_id]. *)
Definition spaced_request : SaveProfileRequest :=
  {| sp_user_id := spaced_user_id; content := sample_content "New profile";
     loom_url := None; photo_url := None |}.

(** A profile stored earlier under the slug that the next save will draw
    in [sample_world]. *)
Definition earlier_profile : ProfileDoc :=
  {| profile_oid := zero_oid; profile_user_id := zero_oid;
     profile_content := sample_content "Earlier profile";
     profile_loom_url := None; profile_photo_url := None;
     profile_share_slug := pystr "0000000000";
     profile_created_at := 0; profile_updated_at := 0 |}.

(** A store holding [earlier_profile] only. *)
Definition store_with_earlier_profile : Store :=
  {| users := []; sessions := []; profiles := [earlier_profile] |}.

(** ** More on the generated content *)

(** The bullet [b] is made from [line] and a keyword of [jd] found in it. *)
Definition bullet_from (jd : str) (b line : str) : Prop :=
  exists k, k ∈ keywords jd /\ contains k (lower line) = true /\
            b = pystr "Delivered " ++ k ++ pystr "-focused outcomes: " ++ take 140 line.

(** ** More on the store *)

(** A text [ObjectId] accepts: 24 hexadecimal digits. *)
Definition valid_object_id (s : str) : Prop :=
  length s = 24%nat /\ Forall (fun c => is_Some (hex_value c)) s.

(** What identifies a user for good: [_id], email and creation time. *)
Definition user_key (u : UserDoc) : ObjectId12 * str * datetime :=
  (user_oid u, user_email u, user_created_at u).


(** The path of the temporary file that the next DOCX upload is written
    to in the world [w]. *)
Definition next_tmp_name (w : World) : str :=
  supply_peek (w_tmpnames w) 0 ++ pystr ".docx".

(** The world after [data] was written to that file: one name is drawn
    and one file is left on disk, nothing else changes. *)
Definition world_after_upload (w : World) (data : bytes) : World :=
  {| db := db w; w_random := w_random w; w_clock := w_clock w; w_oids := w_oids w;
     w_tmpnames := supply_next (w_tmpnames w);
     w_tmpfiles := w_tmpfiles w ++ [(next_tmp_name w, data)] |}.

(** The upload reaches the DOCX parser: the database is configured, the
    extension is [docx] or [doc] and the package is installed. *)
Definition reaches_docx (parsers : Parsers) (file : UploadFile) (w : World) : Prop :=
  is_Some (db w) /\
  extension_of (filename file) ∈ [pystr "docx"; pystr "doc"] /\
  is_Some (docx parsers).

(** A PDF reader that finds three pages, the second of which fails. *)
Definition three_page_reader : bytes -> str + list (option str) :=
  fun _ => inr [Some (pystr " first "); None; Some (pystr "last ")].

(** The same reader on the document without the failing page. *)
Definition two_page_reader : bytes -> str + list (option str) :=
  fun _ => inr [Some (pystr " first "); Some (pystr "last ")].

(** A DOCX parser that finds one paragraph. *)
Definition one_paragraph_parsers : Parsers :=
  {| PdfReader := Some two_page_reader;
     docx := Some (fun _ _ => inr [pystr "  Ten years of gardening. "]) |}.

(** A user registered under the email [ann@example.org]. *)
Definition ann : UserDoc :=
  {| user_oid := zero_oid; user_email := pystr "ann@example.org";
     user_name := Some (pystr "ann");
     user_created_at := 0; user_updated_at := 0 |}.

(** A store holding [ann] only. *)
Definition store_with_ann : Store :=
  {| users := [ann]; sessions := []; profiles := [] |}.

(** The value of a character read as a hexadecimal digit; 0 for any
    other character. *)
Definition digit_value (c : N) : N := default 0 (hex_value c).

(** The canonical text of a version-4 UUID: 36 characters, a dash at the
    positions 8, 13, 18 and 23 and lowercase hexadecimal digits elsewhere,
    the version digit 4 at position 14, and one of 8, 9, a, b (the
    variant) at position 19. *)
Definition canonical_uuid4 (t : str) : Prop :=
  length t = 36%nat /\
  (forall (i : nat) c, t !! i = Some c ->
     if bool_decide (i ∈ [8; 13; 18; 23]%nat) then c = 0x2D else is_lower_hex c = true) /\
  t !! 14%nat = Some 0x34 /\
  exists c, t !! 19%nat = Some c /\ c ∈ [0x38; 0x39; 0x61; 0x62].

(** * Properties *)

(** ** Whitespace and [strip] *)

Lemma lstrip_blank s : blank s -> lstrip s = [].
Proof.
  induction 1 as [|c r Hc _ IH]; simpl; [done|]. by rewrite Hc.
Qed.

Lemma lstrip_nil_blank s : lstrip s = [] -> blank s.
Proof.
  induction s as [|c r IH]; simpl; [constructor|].
  destruct (is_space c) eqn:Hc; [|done].
  intros Hr. constructor; [done|by apply IH].
Qed.

Lemma lstrip_suffix s : exists pre, s = pre ++ lstrip s /\ blank pre.
Proof.
  induction s as [|c r (pre & Hr & Hpre)]; simpl.
  - exists []. split; [done|constructor].
  - destruct (is_space c) eqn:Hc.
    + exists (c :: pre). split; [simpl; congruence|by constructor].
    + exists []. split; [done|constructor].
Qed.

Lemma lstrip_head c r s : lstrip s = c :: r -> is_space c = false.
Proof.
  induction s as [|a t IH]; simpl; [done|].
  destruct (is_space a) eqn:Ha; [done|]. congruence.
Qed.

Lemma blank_app s t : blank (s ++ t) <-> blank s /\ blank t.
Proof. apply Forall_app. Qed.

Lemma blank_rev s : blank (rev s) <-> blank s.
Proof.
  unfold blank. split; intros H.
  - rewrite <- (rev_involutive s). by apply Forall_rev.
  - by apply Forall_rev.
Qed.

Lemma strip_nil_iff s : strip s = [] <-> blank s.
Proof.
  unfold strip, rstrip. split.
  - intros H. apply (f_equal (@rev N)) in H. rewrite rev_involutive in H. simpl in H.
    apply lstrip_nil_blank in H. apply (proj1 (blank_rev _)) in H.
    destruct (lstrip_suffix s) as (pre & Hs & Hpre).
    rewrite Hs. apply blank_app. by split.
  - intros H. rewrite (lstrip_blank s H). done.
Qed.

Lemma truthy_strip s : truthy (strip s) = false <-> blank s.
Proof.
  rewrite <- strip_nil_iff. destruct (strip s); simpl; split; congruence.
Qed.

(** ** C1: [generate] validates its two texts *)

(** C1. [generate] raises [HTTPException] 400 when the job description
    or the user material is empty or whitespace only, and returns the
    generated content of [simple_ai_generate], without error, when neither
    is. *)
Theorem generate_validates_input (set_iter : set_site -> gset str -> list str)
    (payload : GenerateRequest) :
  generate set_iter payload =
  if decide (blank (job_description payload) \/ blank (user_material payload))
  then HTTPException 400 (pystr "Both job description and user material are required")
  else Ok (simple_ai_generate set_iter (job_description payload) (user_material payload)).
Proof.
  unfold generate.
  destruct (truthy (strip (job_description payload))) eqn:Ej;
    destruct (truthy (strip (user_material payload))) eqn:Eu; simpl;
    try apply truthy_strip in Ej; try apply truthy_strip in Eu.
  - rewrite decide_False; [done|].
    intros [H|H]; apply truthy_strip in H; congruence.
  - rewrite decide_True; [done|by right].
  - rewrite decide_True; [done|by left].
  - rewrite decide_True; [done|by left].
Qed.

(** The failing calls of the specification's examples. *)
Example generate_empty_inputs (set_iter : set_site -> gset str -> list str) (uid : str) :
  let bad := HTTPException 400 (pystr "Both job description and user material are required") in
  generate set_iter {| gr_user_id := uid; job_description := []; user_material := pystr "x" |} = bad /\
  generate set_iter {| gr_user_id := uid; job_description := pystr "x"; user_material := [] |} = bad /\
  generate set_iter {| gr_user_id := uid; job_description := []; user_material := [] |} = bad /\
  generate set_iter {| gr_user_id := uid; job_description := pystr " "; user_material := nl |} = bad.
Proof. repeat split. Qed.

(** ** C2: the bullets *)


Lemma scan_keywords_no_match ks line bs :
  (forall k, k ∈ ks -> contains k (lower line) = false) ->
  scan_keywords ks line bs = bs.
Proof.
  induction ks as [|k ks IH]; simpl; intros H; [done|].
  rewrite (H k) by left. simpl. apply IH. intros k' Hk'. apply H. by right.
Qed.


Lemma fold_scan_no_match ks lines bs :
  (forall line k, line ∈ lines -> k ∈ ks -> contains k (lower line) = false) ->
  fold_left (fun bullets line => scan_keywords ks line bullets) lines bs = bs.
Proof.
  revert bs. induction lines as [|l lines IH]; simpl; intros bs H; [done|].
  rewrite scan_keywords_no_match.
  - apply IH. intros line k Hl Hk. apply H; [by right|done].
  - intros k Hk. apply H; [by left|done].
Qed.

Lemma scan_keywords_prefix ks line bs : exists t, scan_keywords ks line bs = bs ++ t.
Proof.
  induction ks as [|k ks IH]; simpl.
  - exists []. by rewrite app_nil_r.
  - destruct (contains k (lower line) && (length bs <? 8)%nat); [by eexists|done].
Qed.

Lemma fold_scan_prefix ks lines bs :
  exists t, fold_left (fun bullets line => scan_keywords ks line bullets) lines bs = bs ++ t.
Proof.
  revert bs. induction lines as [|l lines IH]; intros bs; simpl.
  - exists []. by rewrite app_nil_r.
  - destruct (scan_keywords_prefix ks l bs) as [t Ht]. rewrite Ht.
    destruct (IH (bs ++ t)) as [t' Ht']. rewrite Ht', <- app_assoc. by eexists.
Qed.

Lemma scan_keywords_nil ks line :
  scan_keywords ks line [] = [] ->
  forall k, k ∈ ks -> contains k (lower line) = false.
Proof.
  induction ks as [|k ks IH]; simpl; intros Hs k' Hk'; [by apply elem_of_nil in Hk'|].
  destruct (contains k (lower line)) eqn:Hc; [done|].
  apply elem_of_cons in Hk' as [->|Hk']; [done|by apply IH].
Qed.

(** The bullets are the fallback exactly when none of the first 12 lines
    contains one of the first 8 listed keywords. *)
Lemma fold_scan_nil_iff ks lines :
  fold_left (fun bullets line => scan_keywords ks line bullets) lines [] = []
  <-> forall line k, line ∈ lines -> k ∈ ks -> contains k (lower line) = false.
Proof.
  split; [|apply fold_scan_no_match].
  induction lines as [|l lines IH]; simpl; intros Hf line k Hl Hk.
  - by apply elem_of_nil in Hl.
  - destruct (scan_keywords ks l []) as [|b bs] eqn:Hs.
    + apply elem_of_cons in Hl as [->|Hl]; [by eapply scan_keywords_nil|by apply IH].
    + destruct (fold_scan_prefix ks lines (b :: bs)) as [t Ht]. rewrite Ht in Hf. done.
Qed.

Section GeneratorProperties.

Variable set_iter : set_site -> gset str -> list str.

(** Whatever the order, listing a set gives each of its members once. *)
Hypothesis set_iter_elements : forall site s, set_iter site s ≡ₚ elements s.






End GeneratorProperties.

Lemma elements_order_elements (site : set_site) (s : gset str) :
  elements_order site s ≡ₚ elements s.
Proof. reflexivity. Qed.

Lemma no_keyword_matchb_spec jd um :
  no_keyword_matchb jd um = true -> no_keyword_match jd um.
Proof.
  unfold no_keyword_matchb, no_keyword_match. rewrite forallb_forall.
  intros H line k Hl Hk. apply list_elem_of_In in Hl. specialize (H line Hl).
  rewrite forallb_forall in H. apply list_elem_of_In in Hk. specialize (H k Hk).
  by apply negb_true_iff in H.
Qed.


(** The fallback bullet of the example, and its premise. *)
Example gardening_no_match : no_keyword_match seven_keywords gardening.
Proof. apply no_keyword_matchb_spec. by vm_compute. Qed.

Example gardening_bullets :
  bullets (simple_ai_generate elements_order seven_keywords gardening)
  = [fallback_bullet (elements_order UmKw (list_to_set (keywords gardening)))].
Proof. by vm_compute. Qed.

(** ** C3: the title *)

Lemma blankb_spec s : blankb s = true <-> blank s.
Proof.
  unfold blankb, blank. rewrite forallb_forall, Forall_forall.
  split; intros H c Hc; apply H; by apply list_elem_of_In.
Qed.

Lemma split_from_blank cur s :
  blank s -> split_from cur s = match cur with [] => [] | _ => [rev cur] end.
Proof.
  intros H. revert cur. induction H as [|c r Hc _ IH]; intros cur; simpl; [done|].
  rewrite Hc. destruct cur; rewrite IH; done.
Qed.

Lemma split_from_app_blank cur s post :
  blank post -> split_from cur (s ++ post) = split_from cur s.
Proof.
  intros Hp. revert cur. induction s as [|c r IH]; intros cur; simpl.
  - by apply split_from_blank.
  - destruct (is_space c); [destruct cur|]; by rewrite IH.
Qed.

Lemma split_lstrip s : split (lstrip s) = split s.
Proof.
  unfold split. induction s as [|c r IH]; simpl; [done|].
  destruct (is_space c) eqn:Hc; [done|]. simpl. by rewrite Hc.
Qed.

Lemma rstrip_prefix s : exists post, s = rstrip s ++ post /\ blank post.
Proof.
  unfold rstrip. destruct (lstrip_suffix (rev s)) as (pre & Hs & Hpre).
  exists (rev pre). split; [|by apply blank_rev].
  rewrite <- rev_app_distr, <- Hs. by rewrite rev_involutive.
Qed.

Lemma split_rstrip s : split (rstrip s) = split s.
Proof.
  destruct (rstrip_prefix s) as (post & Hs & Hpost).
  rewrite Hs at 2. unfold split. by rewrite split_from_app_blank.
Qed.

Lemma split_strip s : split (strip s) = split s.
Proof. unfold strip. by rewrite split_rstrip, split_lstrip. Qed.

Lemma stripped_lines_head {A} (f : str -> A) (d : A) (lines : list str) :
  match filter (fun l => l ≠ []) (strip <$> lines) with
  | l0 :: _ => f l0
  | [] => d
  end
  = match List.find (fun l => negb (blankb l)) lines with
    | Some l => f (strip l)
    | None => d
    end.
Proof.
  induction lines as [|l lines IH]; simpl; [done|].
  rewrite filter_cons. destruct (blankb l) eqn:Hb; simpl.
  - apply blankb_spec, strip_nil_iff in Hb. rewrite decide_False; [done|]. congruence.
  - rewrite decide_True; [done|]. intros Hs. apply strip_nil_iff, blankb_spec in Hs. congruence.
Qed.

Lemma title_formula (set_iter : set_site -> gset str -> list str) (jd um : str) :
  title (simple_ai_generate set_iter jd um) =
  match first_nonblank_line jd with
  | Some line => join (pystr " ") (take 6 (split line))
  | None => pystr "Professional Profile"
  end.
Proof.
  unfold simple_ai_generate, first_nonblank_line, stripped_lines. simpl.
  rewrite (stripped_lines_head (fun l0 => join (pystr " ") (take 6 (split l0)))).
  destruct (List.find _ (splitlines jd)); [|done]. by rewrite split_strip.
Qed.

Lemma split_from_nonspace cur w s :
  Forall (fun c => is_space c = false) w ->
  split_from cur (w ++ s) = split_from (rev w ++ cur) s.
Proof.
  intros H. revert cur. induction H as [|c r Hc _ IH]; intros cur; simpl; [done|].
  rewrite Hc, IH. by rewrite <- app_assoc.
Qed.

Lemma split_from_token w s :
  is_token w -> split_from [] (w ++ 0x20 :: s) = w :: split_from [] s.
Proof.
  intros [Hne Hw]. rewrite split_from_nonspace by done. simpl.
  rewrite app_nil_r. destruct (rev w) eqn:Hr.
  - apply (f_equal (@rev N)) in Hr. rewrite rev_involutive in Hr. done.
  - by rewrite <- Hr, rev_involutive.
Qed.

(** Tokens joined by single spaces are the tokens [split] finds. *)
Lemma join_cons_cons sep (x y : str) (r : list str) :
  join sep (x :: y :: r) = x ++ sep ++ join sep (y :: r).
Proof. reflexivity. Qed.

Lemma split_join_tokens ws : Forall is_token ws -> split (join (pystr " ") ws) = ws.
Proof.
  unfold split. induction 1 as [|w r Hw Hr IH]; [done|].
  destruct r as [|w' r'].
  - cbn [join]. rewrite <- (app_nil_r w) at 1. destruct Hw as [Hne Hw].
    rewrite split_from_nonspace by done. cbn [split_from]. rewrite app_nil_r.
    destruct (rev w) eqn:Hrev.
    + apply (f_equal (@rev N)) in Hrev. rewrite rev_involutive in Hrev. done.
    + by rewrite <- Hrev, rev_involutive.
  - rewrite join_cons_cons.
    change (pystr " " ++ join (pystr " ") (w' :: r'))
      with (0x20 :: join (pystr " ") (w' :: r')).
    rewrite split_from_token by done. by rewrite IH.
Qed.

(** A first line of up to 6 tokens separated by single spaces is the
    title as it stands; of a longer one the first 6 tokens are kept. *)
Lemma title_of_spaced_tokens (set_iter : set_site -> gset str -> list str)
    (jd um : str) (ws : list str) :
  Forall is_token ws ->
  first_nonblank_line jd = Some (join (pystr " ") ws) ->
  title (simple_ai_generate set_iter jd um) = join (pystr " ") (take 6 ws) /\
  ((length ws <= 6)%nat ->
   title (simple_ai_generate set_iter jd um) = join (pystr " ") ws).
Proof.
  intros Hws Hline. rewrite title_formula, Hline, split_join_tokens by done.
  split; [done|]. intros Hlen. by rewrite take_ge.
Qed.

Example title_senior_backend_engineer (set_iter : set_site -> gset str -> list str) (um : str) :
  title (simple_ai_generate set_iter (pystr "Senior Backend Engineer at Acme") um)
  = pystr "Senior Backend Engineer at Acme".
Proof. rewrite title_formula. reflexivity. Qed.

Example title_eight_tokens (set_iter : set_site -> gset str -> list str) (um : str) :
  title (simple_ai_generate set_iter (pystr "one two three four five six seven eight") um)
  = pystr "one two three four five six".
Proof. rewrite title_formula. reflexivity. Qed.

(** C3. The title is made of the first 6 whitespace-separated tokens of
    the first line of the job description that is not blank, joined by
    single spaces; without such a line it is the default title. *)
Theorem title_first_six_tokens (set_iter : set_site -> gset str -> list str)
    (jd um : str) :
  title (simple_ai_generate set_iter jd um) =
  match first_nonblank_line jd with
  | Some line => join (pystr " ") (take 6 (split line))
  | None => pystr "Professional Profile"
  end.
Proof.
  unfold simple_ai_generate, first_nonblank_line, stripped_lines. cbn [title].
  rewrite (stripped_lines_head (fun l0 => join (pystr " ") (take 6 (split l0)))).
  destruct (List.find _ (splitlines jd)) as [line|]; [|done].
  by rewrite split_strip.
Qed.

(** ** C4: the cover letter and the summary *)

(** C4, as stated, fails: with 7 overlap keywords the cover letter is
    not the template filled with all of them, and one overlap keyword
    does not occur in it at all. *)
Lemma cover_letter_unbounded_counterexample :
  let gc := simple_ai_generate elements_order seven_keywords seven_keywords in
  let overlap := elements_order Overlap (overlap_set seven_keywords seven_keywords) in
  length overlap = 7%nat /\
  cover_letter gc <> cover_letter_template overlap /\
  exists k, k ∈ overlap /\ contains k (cover_letter gc) = false.
Proof.
  split; [by vm_compute|]. split.
  - apply (bool_decide_eq_false_1 _). by vm_compute.
  - exists (pystr "terraform"). split; [|by vm_compute].
    apply (bool_decide_eq_true_1 _). by vm_compute.
Qed.

Section CoverLetter.

Variable set_iter : set_site -> gset str -> list str.
Hypothesis set_iter_elements : forall site s, set_iter site s ≡ₚ elements s.

(** C4, amended. The cover letter and the summary name the same
    keywords: the first 6 of the listed overlap, or all of them when
    there are fewer; each is a keyword of both texts and is named once. *)
Theorem cover_letter_names_six (jd um : str) :
  let gc := simple_ai_generate set_iter jd um in
  exists named : list str,
    cover_letter gc = cover_letter_template named /\
    summary gc = summary_template named /\
    length named = (6 `min` size (overlap_set jd um))%nat /\
    NoDup named /\
    forall k, k ∈ named -> k ∈ keywords jd /\ k ∈ keywords um.
Proof.
  simpl. exists (take 6 (set_iter Overlap (overlap_set jd um))).
  split; [done|]. split; [done|]. split; [|split].
  - rewrite length_take. f_equal. unfold size, set_size. simpl.
    by rewrite set_iter_elements.
  - eapply sublist_NoDup; [|apply sublist_take].
    rewrite set_iter_elements. apply NoDup_elements.
  - intros k Hk. apply (subseteq_take 6) in Hk.
    rewrite set_iter_elements, elem_of_elements in Hk.
    unfold overlap_set in Hk. apply elem_of_intersection in Hk as [H1 H2].
    by rewrite !elem_of_list_to_set in H1, H2.
Qed.

End CoverLetter.

(** C4, amended, at the input of the counterexample. *)
Lemma cover_letter_names_six_witness :
  let gc := simple_ai_generate elements_order seven_keywords seven_keywords in
  exists named : list str,
    cover_letter gc = cover_letter_template named /\
    summary gc = summary_template named /\
    length named = (6 `min` size (overlap_set seven_keywords seven_keywords))%nat /\
    NoDup named /\
    forall k, k ∈ named -> k ∈ keywords seven_keywords /\ k ∈ keywords seven_keywords.
Proof.
  apply (cover_letter_names_six elements_order elements_order_elements
           seven_keywords seven_keywords).
Defined.

(** ** C5: keyword extraction *)

Lemma letters_prefix_run w s :
  Forall (fun c => is_ascii_letter c = true) w -> starts_with_letter s = false ->
  letters_prefix (w ++ s) = (w, s).
Proof.
  intros Hw Hs. induction Hw as [|c r Hc _ IH]; simpl.
  - destruct s as [|c s]; [done|]. simpl in *. by rewrite Hs.
  - by rewrite Hc, IH.
Qed.

Lemma letters_prefix_spec s :
  let '(w, r) := letters_prefix s in
  s = w ++ r /\ Forall (fun c => is_ascii_letter c = true) w /\ starts_with_letter r = false.
Proof.
  induction s as [|c s IH]; simpl; [by repeat split|].
  destruct (is_ascii_letter c) eqn:Hc.
  - destruct (letters_prefix s) as [w r]. destruct IH as (-> & Hw & Hr).
    repeat split; [by constructor|done].
  - repeat split; [constructor|]. simpl. done.
Qed.

Lemma letter_runs_skip c s : is_ascii_letter c = false -> letter_runs (c :: s) = letter_runs s.
Proof. intros H. simpl. by rewrite H. Qed.

Lemma letter_runs_run w s :
  w ≠ [] -> Forall (fun c => is_ascii_letter c = true) w -> starts_with_letter s = false ->
  letter_runs (w ++ s) = w :: letter_runs s.
Proof.
  intros Hne Hw Hs. induction Hw as [|c r Hc Hr IH]; [done|].
  change ((c :: r) ++ s) with (c :: (r ++ s)). cbn [letter_runs]. rewrite Hc.
  destruct r as [|c' r'].
  - simpl. by rewrite Hs.
  - rewrite IH by done. apply Forall_cons in Hr as [Hc' _]. simpl. by rewrite Hc'.
Qed.

Lemma letter_runs_maximal s : runs_of s (letter_runs s).
Proof.
  induction s as [s IH] using (induction_ltof1 _ (@length N)). unfold ltof in IH.
  destruct s as [|c r]; [constructor|].
  destruct (is_ascii_letter c) eqn:Hc.
  - pose proof (letters_prefix_spec (c :: r)) as H.
    destruct (letters_prefix (c :: r)) as [w t] eqn:Hp. destruct H as (Hs & Hw & Ht).
    assert (Hne : w ≠ []).
    { simpl in Hp. rewrite Hc in Hp. destruct (letters_prefix r). by inversion Hp. }
    rewrite Hs, letter_runs_run by done. constructor; try done.
    apply IH. rewrite Hs, length_app. destruct w; [done|simpl; lia].
  - rewrite letter_runs_skip by done. constructor; [done|]. apply IH. simpl. lia.
Qed.

Lemma findall_fuel_S f s :
  findall_fuel (S f) s =
  match match_letters4 s with
  | Some (m, rest) => m :: findall_fuel f rest
  | None => match s with
            | [] => []
            | _ :: r => findall_fuel f r
            end
  end.
Proof. reflexivity. Qed.

Lemma findall_fuel_enough f1 f2 s :
  (length s < f1)%nat -> (length s < f2)%nat -> findall_fuel f1 s = findall_fuel f2 s.
Proof.
  revert f2 s. induction f1 as [|f1 IH]; intros f2 s H1 H2; [lia|].
  destruct f2 as [|f2]; [lia|]. rewrite !findall_fuel_S. unfold match_letters4.
  pose proof (letters_prefix_spec s) as Hp. destruct (letters_prefix s) as [w r].
  destruct Hp as (Hs & _ & _).
  destruct (4 <=? length w)%nat eqn:Hlen.
  - apply Nat.leb_le in Hlen. f_equal. apply IH; rewrite Hs, length_app in *; lia.
  - destruct s as [|c t]; [done|]. apply IH; simpl in *; lia.
Qed.

Lemma match_letters4_run w s :
  Forall (fun c => is_ascii_letter c = true) w -> starts_with_letter s = false ->
  match_letters4 (w ++ s) = if (4 <=? length w)%nat then Some (w, s) else None.
Proof. intros Hw Hs. unfold match_letters4. by rewrite letters_prefix_run. Qed.

Lemma findall_nil : re_findall_letters4 [] = [].
Proof. reflexivity. Qed.

Lemma findall_skip c s :
  is_ascii_letter c = false -> re_findall_letters4 (c :: s) = re_findall_letters4 s.
Proof.
  intros Hc. unfold re_findall_letters4. rewrite findall_fuel_S.
  change (c :: s) with ([] ++ c :: s) at 1.
  rewrite match_letters4_run by (constructor || (simpl; done)).
  cbn [length Nat.leb]. apply findall_fuel_enough; simpl; lia.
Qed.

Lemma findall_short_run w s :
  Forall (fun c => is_ascii_letter c = true) w -> starts_with_letter s = false ->
  (length w < 4)%nat ->
  re_findall_letters4 (w ++ s) = re_findall_letters4 s.
Proof.
  intros Hw Hs Hlen. induction Hw as [|c r Hc Hr IH]; [done|].
  rewrite <- IH by (simpl in Hlen; lia).
  unfold re_findall_letters4. rewrite findall_fuel_S.
  rewrite match_letters4_run by (done || by constructor).
  replace (4 <=? length (c :: r))%nat with false by (symmetry; apply Nat.leb_gt; lia).
  change ((c :: r) ++ s) with (c :: (r ++ s)).
  apply findall_fuel_enough; simpl; lia.
Qed.

Lemma findall_long_run w s :
  Forall (fun c => is_ascii_letter c = true) w -> starts_with_letter s = false ->
  (4 <= length w)%nat ->
  re_findall_letters4 (w ++ s) = w :: re_findall_letters4 s.
Proof.
  intros Hw Hs Hlen. unfold re_findall_letters4. rewrite findall_fuel_S.
  rewrite match_letters4_run by done.
  replace (4 <=? length w)%nat with true by (symmetry; by apply Nat.leb_le).
  f_equal. apply findall_fuel_enough; rewrite ?length_app; lia.
Qed.

Lemma findall_runs_of s ws :
  runs_of s ws -> re_findall_letters4 s = filter (fun w => (4 <= length w)%nat) ws.
Proof.
  induction 1 as [|c s ws Hc _ IH|w s ws Hne Hw Hs _ IH].
  - done.
  - rewrite findall_skip by done. apply IH.
  - rewrite filter_cons.
    destruct (decide (4 <= length w)%nat) as [Hlen|Hlen].
    + rewrite findall_long_run by done. by rewrite IH.
    + rewrite findall_short_run by (done || lia). apply IH.
Qed.

(** The scan of the regular expression finds the maximal runs of letters
    that have at least 4 letters. *)
Lemma findall_letter_runs s :
  re_findall_letters4 s = filter (fun w => (4 <= length w)%nat) (letter_runs s).
Proof. apply findall_runs_of, letter_runs_maximal. Qed.

Lemma occurrences_snoc v w ws :
  occurrences v (ws ++ [w]) = (occurrences v ws + if decide (w = v) then 1 else 0)%nat.
Proof.
  unfold occurrences. rewrite filter_app, length_app. f_equal.
  rewrite filter_cons, filter_nil. by destruct (decide (w = v)).
Qed.

Lemma occurrences_not_in w ws : w ∉ ws -> occurrences w ws = 0%nat.
Proof.
  unfold occurrences. induction ws as [|v r IH]; [done|]. intros Hn.
  rewrite filter_cons. apply not_elem_of_cons in Hn as [Hne Hr].
  rewrite decide_False by done. by apply IH.
Qed.

Lemma elem_of_first_seen w ws : w ∈ first_seen ws <-> w ∈ ws.
Proof.
  revert w. induction ws as [|v r IH]; intros w; simpl; [done|].
  rewrite !elem_of_cons, list_elem_of_filter, IH.
  destruct (decide (w = v)); tauto.
Qed.

Lemma NoDup_first_seen ws : NoDup (first_seen ws).
Proof.
  induction ws as [|v r IH]; simpl; constructor.
  - rewrite list_elem_of_filter. naive_solver.
  - by apply NoDup_filter.
Qed.

Lemma first_seen_snoc w ws :
  first_seen (ws ++ [w]) = first_seen ws ++ if decide (w ∈ ws) then [] else [w].
Proof.
  induction ws as [|v r IH]; [done|].
  cbn [first_seen app]. rewrite IH, filter_app. f_equal. f_equal.
  {
    destruct (decide (w = v)) as [->|Hne].
    + rewrite (decide_True (P := v ∈ v :: r)) by left.
      destruct (decide (v ∈ r)); [done|]. rewrite filter_cons, decide_False; [done|]. tauto.
    + destruct (decide (w ∈ r)) as [Hin|Hin].
      * rewrite decide_True; [done|by right].
      * rewrite decide_False by (rewrite elem_of_cons; tauto).
        rewrite filter_cons, decide_True; done. }
Qed.

Lemma dict_get_table (g : str -> nat) l w d :
  dict_get ((fun v => (v, g v)) <$> l) w d = if decide (w ∈ l) then g w else d.
Proof.
  induction l as [|v r IH]; [done|]. cbn [fmap list_fmap dict_get].
  - destruct (decide (v = w)) as [->|Hne].
    + rewrite decide_True; [done|by left].
    + rewrite IH. destruct (decide (w ∈ r)) as [Hin|Hin].
      * rewrite decide_True; [done|by right].
      * rewrite decide_False; [done|]. rewrite elem_of_cons. naive_solver.
Qed.

Lemma dict_set_table (g : str -> nat) l w x :
  NoDup l ->
  dict_set ((fun v => (v, g v)) <$> l) w x
  = ((fun v => (v, if decide (v = w) then x else g v)) <$> l)
    ++ if decide (w ∈ l) then [] else [(w, x)].
Proof.
  induction 1 as [|v r Hv Hr IH]; [done|]. cbn [fmap list_fmap dict_set].
  destruct (decide (v = w)) as [->|Hne].
    + rewrite (decide_True (P := w ∈ w :: r)) by left. rewrite app_nil_r.
      f_equal.
      apply list_fmap_ext. intros i v Hl. apply list_elem_of_lookup_2 in Hl.
      rewrite decide_False; [done|]. congruence.
    + rewrite IH.
      cbn [app]. f_equal. f_equal.
      destruct (decide (w ∈ r)) as [Hin|Hin].
      * rewrite decide_True; [done|by right].
      * rewrite decide_False; [done|]. rewrite elem_of_cons. naive_solver.
Qed.

Lemma count_step pre w :
  dict_set (frequency_table pre) w (dict_get (frequency_table pre) w 0 + 1)%nat
  = frequency_table (pre ++ [w]).
Proof.
  unfold frequency_table. rewrite dict_get_table, dict_set_table by apply NoDup_first_seen.
  rewrite first_seen_snoc, fmap_app. f_equal.
  - apply list_fmap_ext. intros i v _. rewrite occurrences_snoc. f_equal.
    destruct (decide (v = w)) as [->|Hne].
    + rewrite (decide_True (P := w = w)) by done.
      destruct (decide (w ∈ first_seen pre)) as [Hin|Hin]; [done|].
      rewrite elem_of_first_seen in Hin. by rewrite occurrences_not_in.
    + rewrite decide_False by congruence. by rewrite Nat.add_0_r.
  - destruct (decide (w ∈ pre)) as [Hin|Hin].
    + rewrite decide_True; [done|by apply elem_of_first_seen].
    + rewrite !decide_False by (by rewrite elem_of_first_seen).
      simpl. rewrite occurrences_snoc, decide_True by done.
      by rewrite occurrences_not_in.
Qed.

(** The dictionary built by the loop is the frequency table. *)
Lemma count_words_table ws : count_words ws = frequency_table ws.
Proof.
  unfold count_words.
  enough (H : forall pre,
             fold_left (fun common w => dict_set common w (dict_get common w 0 + 1)%nat)
                       ws (frequency_table pre) = frequency_table (pre ++ ws))
    by apply (H []).
  induction ws as [|w r IH]; intros pre; simpl.
  - by rewrite app_nil_r.
  - rewrite count_step, IH. by rewrite <- app_assoc.
Qed.

Lemma insert_desc_perm x l : insert_desc x l ≡ₚ x :: l.
Proof.
  induction l as [|y r IH]; simpl; [done|].
  destruct (snd y <=? snd x)%nat; [done|]. rewrite IH. apply Permutation_swap.
Qed.

Lemma insert_desc_sorted x l :
  StronglySorted count_ge l -> StronglySorted count_ge (insert_desc x l).
Proof.
  induction 1 as [|y r Hr IH Hy]; simpl.
  - repeat constructor.
  - destruct (snd y <=? snd x)%nat eqn:Hle.
    + apply Nat.leb_le in Hle. constructor; [by constructor|].
      constructor; [done|]. eapply Forall_impl; [exact Hy|].
      intros z Hz. unfold count_ge in *. lia.
    + apply Nat.leb_gt in Hle. constructor; [done|].
      rewrite insert_desc_perm. constructor; [|done]. unfold count_ge. lia.
Qed.

Lemma insert_desc_stable n x l :
  filter (fun e => snd e = n) (insert_desc x l) = filter (fun e => snd e = n) (x :: l).
Proof.
  induction l as [|y r IH]; simpl; [done|].
  destruct (snd y <=? snd x)%nat eqn:Hle; [done|].
  apply Nat.leb_gt in Hle. rewrite !filter_cons in *.
  destruct (decide (snd x = n)) as [Hx|Hx].
  - destruct (decide (snd y = n)); [lia|done].
  - destruct (decide (snd y = n)); by rewrite IH.
Qed.

Lemma sorted_by_count_desc_perm l : sorted_by_count_desc l ≡ₚ l.
Proof.
  induction l as [|x r IH]; simpl; [done|]. by rewrite insert_desc_perm, IH.
Qed.

Lemma sorted_by_count_desc_sorted l : StronglySorted count_ge (sorted_by_count_desc l).
Proof.
  induction l as [|x r IH]; simpl; [constructor|]. by apply insert_desc_sorted.
Qed.

Lemma sorted_by_count_desc_stable n l :
  filter (fun e => snd e = n) (sorted_by_count_desc l) = filter (fun e => snd e = n) l.
Proof.
  induction l as [|x r IH]; simpl; [done|].
  rewrite insert_desc_stable, !filter_cons. by rewrite IH.
Qed.

(** C5. The keywords of a text are the first 10 entries of a ranking of
    the frequency table of the lowered text's maximal runs of at least 4
    ASCII letters: the ranking holds every distinct run once with its
    frequency, more frequent runs come first, and runs of equal frequency
    stay in the order in which they were first met. *)
Theorem keywords_top10 (text : str) :
  let words := filter (fun w => (4 <= length w)%nat) (letter_runs (lower text)) in
  exists ranked : list (str * nat),
    keywords text = fst <$> take 10 ranked /\
    ranked ≡ₚ frequency_table words /\
    StronglySorted count_ge ranked /\
    forall n, filter (fun e => snd e = n) ranked
              = filter (fun e => snd e = n) (frequency_table words).
Proof.
  intros words. exists (sorted_by_count_desc (frequency_table words)).
  split; [|split; [|split]].
  - unfold keywords. by rewrite findall_letter_runs, count_words_table.
  - apply sorted_by_count_desc_perm.
  - apply sorted_by_count_desc_sorted.
  - intros n. apply sorted_by_count_desc_stable.
Qed.

Example keywords_example :
  keywords (pystr "beta alpha gamma beta gamma Delta delta delta abc alpha x1 zeta")
  = [pystr "delta"; pystr "beta"; pystr "alpha"; pystr "gamma"; pystr "zeta"].
Proof. by vm_compute. Qed.

(** ** C6: plain-text uploads *)

Lemma split_on_nonempty sep s : split_on sep s ≠ [].
Proof.
  induction s as [|c r IH]; simpl; [done|].
  destruct (c =? sep); [done|]. by destruct (split_on sep r).
Qed.

Lemma split_on_no_sep sep s : sep ∉ s -> split_on sep s = [s].
Proof.
  induction s as [|c r IH]; simpl; [done|]. intros Hn.
  apply not_elem_of_cons in Hn as [Hne Hr].
  destruct (N.eqb_spec c sep); [congruence|]. by rewrite IH.
Qed.

Lemma last_cons_cons {A} (x y : A) l d : List.last (x :: y :: l) d = List.last (y :: l) d.
Proof. reflexivity. Qed.

Lemma split_on_last_cons sep c s :
  List.last (split_on sep (c :: s)) []
  = if bool_decide (sep ∈ s) then List.last (split_on sep s) []
    else if c =? sep then s else c :: s.
Proof.
  cbn [split_on]. destruct (bool_decide (sep ∈ s)) eqn:Hin.
  - apply bool_decide_eq_true_1 in Hin.
    destruct (c =? sep).
    + pose proof (split_on_nonempty sep s). by destruct (split_on sep s).
    + destruct (split_on sep s) as [|w ws] eqn:Hs; [by apply split_on_nonempty in Hs|].
      destruct ws as [|w' ws]; [|reflexivity].
      exfalso. clear -Hin Hs. revert w Hs. induction s as [|a r IH]; intros w Hs.
      * by apply elem_of_nil in Hin.
      * simpl in Hs. destruct (N.eqb_spec a sep) as [->|Hne].
        -- inversion Hs as [[Hw Hr]]. by apply split_on_nonempty in Hr.
        -- apply elem_of_cons in Hin as [?|Hin]; [congruence|].
           destruct (split_on sep r) as [|w1 ws1] eqn:Hr; [by apply split_on_nonempty in Hr|].
           inversion Hs; subst. by eapply IH.
  - apply bool_decide_eq_false_1 in Hin. rewrite (split_on_no_sep sep s Hin).
    by destruct (c =? sep).
Qed.

(** [name.split(".")[-1]] is the text after the last dot. *)
Lemma split_on_last_dot s : List.last (split_on dot s) [] = after_last_dot s.
Proof.
  induction s as [|c r IH]; [done|].
  rewrite split_on_last_cons. cbn [after_last_dot]. by rewrite IH.
Qed.

Lemma after_last_dot_no_dot s : dot ∉ s -> after_last_dot s = s.
Proof.
  destruct s as [|c r]; [done|]. intros Hn. cbn [after_last_dot].
  apply not_elem_of_cons in Hn as [Hne Hr].
  rewrite bool_decide_eq_false_2 by done.
  destruct (N.eqb_spec c dot); [congruence|done].
Qed.

Lemma after_last_dot_suffix pre suf : dot ∉ suf -> after_last_dot (pre ++ dot :: suf) = suf.
Proof.
  intros Hn. induction pre as [|c r IH]; cbn [after_last_dot app].
  - rewrite bool_decide_eq_false_2 by done. done.
  - rewrite bool_decide_eq_true_2; [done|]. apply elem_of_app. right. by left.
Qed.

Lemma decode_utf8_ascii (data : bytes) :
  Forall (fun b => Byte.to_N b < 0x80) data ->
  decode_utf8_ignore data = Byte.to_N <$> data.
Proof.
  induction 1 as [|b r Hb _ IH]; [done|].
  cbn [decode_utf8_ignore fmap list_fmap].
  apply N.ltb_lt in Hb. by rewrite Hb, IH.
Qed.


(** C6, as stated, fails: an upload named [cv.doc] is handed to the DOCX
    parser and is not decoded as text, and no upload is read when the
    database is not configured. *)
Lemma extract_text_counterexample :
  extension_of (Some (pystr "cv.doc")) ≠ pystr "pdf" /\
  extension_of (Some (pystr "cv.doc")) ≠ pystr "docx" /\
  decode_utf8_ignore (encode_utf8 hello_world) = hello_world /\
  fst (extract_text zip_only_parsers (upload "cv.doc" hello_world) (sample_world (Some empty_store)))
  = HTTPException 400 (pystr "Failed to read file: File is not a zip file") /\
  fst (extract_text no_parsers (upload "cv.doc" hello_world) (sample_world (Some empty_store)))
  = HTTPException 400 (pystr "DOCX support not available") /\
  fst (extract_text no_parsers (upload "notes.txt" hello_world) (sample_world None))
  = HTTPException 500 (pystr "Database not configured").
Proof.
  repeat split; by vm_compute.
Qed.

(** C6, amended. With the database configured, an upload whose extension
    is none of pdf, docx and doc is answered with its bytes decoded as
    UTF-8, invalid sequences dropped; nothing else changes. *)
Theorem extract_text_plain (parsers : Parsers) (file : UploadFile) (w : World) (st : Store) :
  db w = Some st ->
  extension_of (filename file) ≠ pystr "pdf" ->
  extension_of (filename file) ≠ pystr "docx" ->
  extension_of (filename file) ≠ pystr "doc" ->
  extract_text parsers file w = (Ok {| text := decode_utf8_ignore (file_bytes file) |}, w).
Proof.
  intros Hdb Hpdf Hdocx Hdoc. unfold extract_text, extension_of in *.
  unfold bind at 1. unfold require_db. rewrite Hdb.
  fold dot. rewrite split_on_last_dot.
  replace (match filename file with Some f => f | None => [] end)
    with (default [] (filename file)) by (by destruct (filename file)).
  rewrite !bool_decide_eq_false_2 by done. done.
Qed.

(** A [.txt] upload of the bytes of ["hello\nworld"] gives that text back. *)
Lemma extract_text_plain_witness :
  extract_text no_parsers (upload "notes.txt" hello_world) (sample_world (Some empty_store))
  = (Ok {| text := hello_world |}, sample_world (Some empty_store)).
Proof.
  apply (extract_text_plain no_parsers (upload "notes.txt" hello_world)
           (sample_world (Some empty_store)) empty_store).
  - reflexivity.
  - by vm_compute.
  - by vm_compute.
  - by vm_compute.
Defined.

(** ** UTF-8: decoding an encoded text *)

Lemma land_shiftl_low a k d : d < 2 ^ k -> N.land (N.shiftl a k) d = 0.
Proof.
  intros Hd. apply N.bits_inj_0. intros m. rewrite N.land_spec.
  destruct (N.lt_ge_cases m k) as [Hm|Hm].
  - by rewrite N.shiftl_spec_low.
  - destruct (N.eq_dec d 0) as [->|Hd0]; [by rewrite N.bits_0, andb_false_r|].
    rewrite (N.bits_above_log2 d m), andb_false_r; [done|].
    apply N.lt_le_trans with k; [|done]. apply N.log2_lt_pow2; lia.
Qed.

(** Bits put next to each other add up. *)
Lemma lor_shiftl_low a k d : d < 2 ^ k -> N.lor (N.shiftl a k) d = a * 2 ^ k + d.
Proof.
  intros Hd. rewrite <- N.lxor_lor, <- N.add_nocarry_lxor by (by apply land_shiftl_low).
  by rewrite N.shiftl_mul_pow2.
Qed.

Lemma land_low_bits a k d : d < 2 ^ k -> N.land (a * 2 ^ k + d) (N.ones k) = d.
Proof.
  intros Hd. rewrite N.land_ones. symmetry. apply (N.mod_unique _ _ a); lia.
Qed.

Lemma to_N_byte_of_N n : n < 256 -> Byte.to_N (byte_of_N n) = n.
Proof.
  intros Hn. unfold byte_of_N. destruct (Byte.of_N n) as [b|] eqn:Hb.
  - by apply Byte.to_of_N.
  - apply Byte.of_N_None_iff in Hb. lia.
Qed.

(** Quotient and remainder of [c] by [k], as fresh variables for [lia]. *)
Ltac digits c k q r :=
  pose proof (N.div_mod' c k);
  assert (c mod k < k) by (apply N.mod_lt; lia);
  set (q := c / k) in *; set (r := c mod k) in *; clearbody q r.

Ltac decide_cmp :=
  repeat match goal with
    | |- context [?a <? ?b] =>
        first [rewrite (proj2 (N.ltb_lt a b)) by lia | rewrite (proj2 (N.ltb_ge a b)) by lia]
    | |- context [?a <=? ?b] =>
        first [rewrite (proj2 (N.leb_le a b)) by lia | rewrite (proj2 (N.leb_gt a b)) by lia]
    | |- context [?a =? ?b] =>
        first [rewrite (proj2 (N.eqb_eq a b)) by lia | rewrite (proj2 (N.eqb_neq a b)) by lia]
    end;
  cbn [andb orb negb].

Lemma decode_1 c rest :
  c < 0x80 -> decode_utf8_ignore (byte_of_N c :: rest) = c :: decode_utf8_ignore rest.
Proof.
  intros Hc. cbn [decode_utf8_ignore]. rewrite to_N_byte_of_N by lia. by decide_cmp.
Qed.

Lemma decode_2 q r rest :
  2 <= q < 32 -> r < 64 ->
  decode_utf8_ignore (byte_of_N (6 * 2 ^ 5 + q) :: byte_of_N (2 * 2 ^ 6 + r) :: rest)
  = (q * 2 ^ 6 + r) :: decode_utf8_ignore rest.
Proof.
  intros Hq Hr. cbn [decode_utf8_ignore].
  rewrite !to_N_byte_of_N by lia. unfold is_continuation, in_range. decide_cmp.
  change 0x1F with (N.ones 5). change 0x3F with (N.ones 6).
  rewrite !land_low_bits by lia. by rewrite lor_shiftl_low by lia.
Qed.

Lemma decode_3 a m d rest :
  a < 16 -> m < 64 -> d < 64 -> (a = 0 -> 32 <= m) -> (a = 13 -> m < 32) ->
  decode_utf8_ignore (byte_of_N (14 * 2 ^ 4 + a) :: byte_of_N (2 * 2 ^ 6 + m)
                        :: byte_of_N (2 * 2 ^ 6 + d) :: rest)
  = (a * 2 ^ 12 + (m * 2 ^ 6 + d)) :: decode_utf8_ignore rest.
Proof.
  intros Ha Hm Hd H0 H13. cbn [decode_utf8_ignore].
  rewrite !to_N_byte_of_N by lia. unfold is_continuation, in_range.
  destruct (N.ltb_spec (2 * 2 ^ 6 + m) 0xA0); decide_cmp;
    change 0x0F with (N.ones 4); change 0x3F with (N.ones 6);
    rewrite !land_low_bits by lia;
    rewrite (lor_shiftl_low m 6 d) by lia; by rewrite lor_shiftl_low by lia.
Qed.

Lemma decode_4 a b m d rest :
  a <= 4 -> b < 64 -> m < 64 -> d < 64 -> (a = 0 -> 16 <= b) -> (a = 4 -> b < 16) ->
  decode_utf8_ignore (byte_of_N (30 * 2 ^ 3 + a) :: byte_of_N (2 * 2 ^ 6 + b)
                        :: byte_of_N (2 * 2 ^ 6 + m) :: byte_of_N (2 * 2 ^ 6 + d) :: rest)
  = (a * 2 ^ 18 + (b * 2 ^ 12 + (m * 2 ^ 6 + d))) :: decode_utf8_ignore rest.
Proof.
  intros Ha Hb Hm Hd H0 H4. cbn [decode_utf8_ignore].
  rewrite !to_N_byte_of_N by lia. unfold is_continuation, in_range.
  destruct (N.ltb_spec (2 * 2 ^ 6 + b) 0x90); decide_cmp;
    change 0x07 with (N.ones 3); change 0x3F with (N.ones 6);
    rewrite !land_low_bits by lia;
    rewrite (lor_shiftl_low m 6 d) by lia; rewrite (lor_shiftl_low b 12) by lia;
    by rewrite lor_shiftl_low by lia.
Qed.

Lemma is_scalar_spec c :
  is_scalar c = true <-> c < 0xD800 \/ (0xE000 <= c <= 0x10FFFF).
Proof.
  unfold is_scalar, in_range.
  rewrite orb_true_iff, andb_true_iff, N.ltb_lt, !N.leb_le. tauto.
Qed.

Lemma shiftr_12 c : N.shiftr c 12 = c / 2 ^ 6 / 2 ^ 6.
Proof. rewrite N.shiftr_div_pow2, N.Div0.div_div. done. Qed.

Lemma shiftr_18 c : N.shiftr c 18 = c / 2 ^ 6 / 2 ^ 6 / 2 ^ 6.
Proof. rewrite N.shiftr_div_pow2, !N.Div0.div_div. done. Qed.

(** One encoded code point is decoded back, whatever follows it. *)
Lemma decode_encode_char c rest :
  is_scalar c = true ->
  decode_utf8_ignore ((byte_of_N <$> encode_utf8_char c) ++ rest)
  = c :: decode_utf8_ignore rest.
Proof.
  intros Hc. apply is_scalar_spec in Hc. unfold encode_utf8_char.
  change 0x3F with (N.ones 6).
  rewrite ?shiftr_12, ?shiftr_18, ?N.shiftr_div_pow2, ?N.land_ones.
  change (2 ^ 6) with 64.
  destruct (N.ltb_spec c 0x80) as [Hlt1|Hlt1]; [by apply decode_1|].
  digits c 64 q d.
  destruct (N.ltb_spec c 0x800) as [Hlt2|Hlt2].
  { subst c. cbn [fmap list_fmap app].
    change 0xC0 with (N.shiftl 6 5). change 0x80 with (N.shiftl 2 6).
    rewrite !lor_shiftl_low by lia. rewrite decode_2 by lia. f_equal. lia. }
  digits q 64 a m.
  destruct (N.ltb_spec c 0x10000) as [Hlt3|Hlt3].
  { subst c q. cbn [fmap list_fmap app].
    change 0xE0 with (N.shiftl 14 4). change 0x80 with (N.shiftl 2 6).
    rewrite !lor_shiftl_low by lia. rewrite decode_3 by lia. f_equal. lia. }
  digits a 64 t b.
  subst c q a. cbn [fmap list_fmap app].
  change 0xF0 with (N.shiftl 30 3). change 0x80 with (N.shiftl 2 6).
  rewrite !lor_shiftl_low by lia. rewrite decode_4 by lia. f_equal. lia.
Qed.

(** An encoded text of Unicode scalar values is decoded back, whatever
    follows it. *)
Lemma decode_encode_app (s : str) (rest : bytes) :
  Forall (fun c => is_scalar c = true) s ->
  decode_utf8_ignore (encode_utf8 s ++ rest) = s ++ decode_utf8_ignore rest.
Proof.
  unfold encode_utf8. induction 1 as [|c r Hc _ IH]; [done|].
  cbn [flat_map]. rewrite fmap_app, <- app_assoc, decode_encode_char by done.
  by rewrite IH.
Qed.

(** A text of Unicode scalar values, encoded as UTF-8 and decoded, is the
    text itself. *)
Lemma decode_encode_utf8 (s : str) :
  Forall (fun c => is_scalar c = true) s -> decode_utf8_ignore (encode_utf8 s) = s.
Proof.
  intros Hs. rewrite <- (app_nil_r (encode_utf8 s)), decode_encode_app by done.
  apply app_nil_r.
Qed.

(** A byte that cannot start a sequence is dropped. *)
Lemma decode_invalid_start (b : byte) (rest : bytes) :
  0x80 <= Byte.to_N b < 0xC2 \/ 0xF5 <= Byte.to_N b ->
  decode_utf8_ignore (b :: rest) = decode_utf8_ignore rest.
Proof.
  intros Hb. cbn [decode_utf8_ignore]. destruct Hb; by decide_cmp.
Qed.

(** An invalid byte between two encoded texts is dropped and both texts
    are kept. *)
Lemma decode_around_invalid_byte (s1 s2 : str) (b : byte) :
  Forall (fun c => is_scalar c = true) s1 ->
  Forall (fun c => is_scalar c = true) s2 ->
  0x80 <= Byte.to_N b < 0xC2 \/ 0xF5 <= Byte.to_N b ->
  decode_utf8_ignore (encode_utf8 s1 ++ b :: encode_utf8 s2) = s1 ++ s2.
Proof.
  intros H1 H2 Hb.
  by rewrite decode_encode_app, decode_invalid_start, decode_encode_utf8.
Qed.

(** ** Hexadecimal text of identifiers *)

Lemma hex_digit_lower n : n < 16 -> is_lower_hex (hex_digit n) = true.
Proof.
  intros H. unfold is_lower_hex, hex_digit, in_range.
  destruct (N.ltb_spec n 10); repeat (rewrite ?orb_true_iff, ?andb_true_iff, ?N.leb_le); lia.
Qed.

Lemma byte_of_hex_of_byte b :
  byte_of_hex (hex_digit (Byte.to_N b / 16)) (hex_digit (Byte.to_N b mod 16)) = Some b.
Proof. destruct b; reflexivity. Qed.

Lemma hex_of_byte_lower b : Forall (fun c => is_lower_hex c = true) (hex_of_byte b).
Proof. destruct b; repeat constructor. Qed.

Lemma hex_of_byte_no_space b :
  is_ascii_space (hex_digit (Byte.to_N b / 16)) = false.
Proof. destruct b; reflexivity. Qed.

Lemma bytes_fromhex_hexlify (bs : bytes) :
  bytes_fromhex (flat_map hex_of_byte bs) = Some bs.
Proof.
  induction bs as [|b bs IH]; [done|].
  cbn [flat_map hex_of_byte app bytes_fromhex].
  by rewrite hex_of_byte_no_space, byte_of_hex_of_byte, IH.
Qed.

Lemma hexlify_length (bs : bytes) : length (flat_map hex_of_byte bs) = (2 * length bs)%nat.
Proof.
  induction bs as [|b bs IH]; [done|].
  cbn [flat_map]. rewrite length_app, IH. simpl. lia.
Qed.

Lemma oid_str_length (oid : ObjectId12) : length (oid_str oid) = 24%nat.
Proof. unfold oid_str. by rewrite hexlify_length, length_vec_to_list. Qed.

(** [ObjectId(str(oid)) == oid] for an ObjectId of 12 bytes. *)
Lemma ObjectId_of_str_oid_str (oid : ObjectId12) :
  ObjectId_of_str (oid_str oid) = Some (vec_to_list oid).
Proof.
  unfold ObjectId_of_str. rewrite bool_decide_eq_true_2 by apply oid_str_length.
  apply bytes_fromhex_hexlify.
Qed.

Lemma oid_str_inj (a b : ObjectId) : oid_str a = oid_str b -> a = b.
Proof.
  intros H. apply (f_equal bytes_fromhex) in H. unfold oid_str in H.
  rewrite !bytes_fromhex_hexlify in H. congruence.
Qed.

Lemma oid_str_lower_hex (oid : ObjectId) : Forall (fun c => is_lower_hex c = true) (oid_str oid).
Proof.
  unfold oid_str. induction oid as [|b bs IH]; [constructor|].
  cbn [flat_map]. apply Forall_app. split; [apply hex_of_byte_lower|done].
Qed.

Lemma hex_chars_lower u : Forall (fun c => is_lower_hex c = true) (hex_chars u).
Proof. induction u; simpl; by constructor. Qed.

Lemma format_0x_lower width n : Forall (fun c => is_lower_hex c = true) (format_0x width n).
Proof.
  unfold format_0x, format_x. apply Forall_app. split; [|apply hex_chars_lower].
  by apply Forall_replicate.
Qed.

Lemma format_0x_length width n : (width <= length (format_0x width n))%nat.
Proof. unfold format_0x. rewrite length_app, length_replicate. lia. Qed.

Lemma hex_uint_chars u : hex_uint (hex_chars u) = u.
Proof. induction u; simpl; congruence. Qed.

Lemma int_of_hex_zeros k s : int_of_hex (replicate k 0x30 ++ s) = int_of_hex s.
Proof. induction k as [|k IH]; [done|]. exact IH. Qed.

Lemma int_of_hex_format width n : int_of_hex (format_0x width n) = n.
Proof.
  unfold format_0x, format_x. rewrite int_of_hex_zeros. unfold int_of_hex.
  rewrite hex_uint_chars. apply HexadecimalN.Unsigned.of_to.
Qed.

Lemma uuid_hex_inj u1 u2 : uuid_hex u1 = uuid_hex u2 -> u1 = u2.
Proof.
  intros H. apply (f_equal int_of_hex) in H. unfold uuid_hex in H.
  by rewrite !int_of_hex_format in H.
Qed.

Lemma filter_no_dash s :
  Forall (fun c => is_lower_hex c = true) s -> filter (fun c => c ≠ 0x2D) s = s.
Proof.
  induction 1 as [|c r Hc _ IH]; [done|]. rewrite filter_cons, IH.
  rewrite decide_True; [done|]. intros ->. done.
Qed.

Lemma uuid_fields_app {A} (l : list A) :
  take 8 l ++ take 4 (drop 8 l) ++ take 4 (drop 12 l) ++ take 4 (drop 16 l) ++ drop 20 l = l.
Proof.
  replace (drop 20 l) with (drop 4 (drop 16 l)) by (by rewrite drop_drop).
  rewrite take_drop.
  replace (drop 16 l) with (drop 4 (drop 12 l)) by (by rewrite drop_drop).
  rewrite take_drop.
  replace (drop 12 l) with (drop 4 (drop 8 l)) by (by rewrite drop_drop).
  rewrite take_drop. apply take_drop.
Qed.

(** Taking the dashes out of [str(u)] gives [u.hex]. *)
Lemma uuid_str_no_dash u : filter (fun c => c ≠ 0x2D) (uuid_str u) = uuid_hex u.
Proof.
  unfold uuid_str. pose proof (format_0x_lower 32 u) as Hhex. fold (uuid_hex u) in Hhex.
  set (hex := uuid_hex u) in *.
  assert (Ht : forall n, filter (fun c => c ≠ 0x2D) (take n hex) = take n hex).
  { intros n. apply filter_no_dash. by apply Forall_take. }
  assert (Hd : forall n k, filter (fun c => c ≠ 0x2D) (take n (drop k hex)) = take n (drop k hex)).
  { intros n k. apply filter_no_dash. by apply Forall_take, Forall_drop. }
  unfold str in *. rewrite !filter_app, Ht, !Hd.
  rewrite (filter_no_dash (drop 20 hex)) by (by apply Forall_drop).
  change (filter (fun c => c ≠ 0x2D) (pystr "-")) with (@nil N). cbn [app].
  apply uuid_fields_app.
Qed.

(** Different UUIDs have different strings. *)
Lemma uuid_str_inj u1 u2 : uuid_str u1 = uuid_str u2 -> u1 = u2.
Proof.
  intros H. apply uuid_hex_inj. rewrite <- !uuid_str_no_dash. by rewrite H.
Qed.

(** ** C7: signing in twice *)

Lemma find_update_first_user e oid name t l :
  user_oid <$> List.find (has_email e) (update_first_user oid name t l)
  = user_oid <$> List.find (has_email e) l.
Proof.
  induction l as [|u r IH]; [done|]. cbn [update_first_user].
  destruct (bool_decide (vec_to_list (user_oid u) = oid)).
  - cbn [List.find]. unfold has_email at 1 3. cbn [user_email].
    by destruct (bool_decide (user_email u = e)).
  - cbn [List.find]. by destruct (has_email e u).
Qed.

Lemma find_app_new e (l : list UserDoc) u :
  List.find (has_email e) l = None -> has_email e u = true ->
  List.find (has_email e) (l ++ [u]) = Some u.
Proof.
  intros Hl Hu. induction l as [|a r IH]; simpl in *; [by rewrite Hu|].
  destruct (has_email e a); [done|]. by apply IH.
Qed.

(** What one call of [signin] does, with the database configured. *)
Lemma signin_run (payload : SignInRequest) (w : World) (st : Store) :
  db w = Some st ->
  exists (w' : World) (st' : Store) (uid : ObjectId12),
    signin payload w
    = (Ok {| user_id := oid_str uid;
             token := uuid_str (uuid4_of (supply_peek (w_random w) 0)) |}, w') /\
    db w' = Some st' /\
    user_oid <$> List.find (has_email (email payload)) (users st') = Some uid /\
    uid = match List.find (has_email (email payload)) (users st) with
          | Some u => user_oid u
          | None => supply_peek (w_oids w) 0
          end /\
    w_random w' = supply_next (w_random w).
Proof.
  intros Hdb. unfold signin.
  unfold bind at 1. unfold require_db at 1. rewrite Hdb.
  unfold bind at 1. unfold find_one_user, bind at 1, require_db at 1. rewrite Hdb.
  unfold ret at 1. fold (has_email (email payload)).
  destruct (List.find (has_email (email payload)) (users st)) as [u|] eqn:Hfind.
  - unfold ObjectId_or_raise. rewrite ObjectId_of_str_oid_str.
    unfold bind, ret, now, update_one_user, uuid4, insert_one_session, new_object_id,
      require_db, set_store, bind, ret. cbn. rewrite Hdb. cbn.
    repeat (rewrite ?ObjectId_of_str_oid_str; cbn).
    eexists _, _, _. split; [reflexivity|]. split; [reflexivity|]. cbn.
    split; [|done]. rewrite find_update_first_user, Hfind. done.
  - unfold ObjectId_or_raise.
    unfold bind, ret, now, insert_one_user, uuid4, insert_one_session, new_object_id,
      require_db, set_store, bind, ret. cbn. rewrite Hdb. cbn.
    repeat (rewrite ?ObjectId_of_str_oid_str; cbn).
    eexists _, _, _. split; [reflexivity|]. split; [reflexivity|]. cbn.
    split; [|done]. erewrite find_app_new; [done|done|].
    unfold has_email. cbn. by apply bool_decide_eq_true_2.
Qed.

Lemma supply_peek_next {A} (s : Supply A) k :
  supply_peek (supply_next s) k = supply_peek s (S k).
Proof. unfold supply_peek, supply_next. simpl. f_equal. lia. Qed.

(** Two calls of [signin] in a row with the same email. *)
Lemma signin_twice_run (email0 : str) (name1 name2 : option str) (w : World) (st : Store) :
  db w = Some st ->
  exists (uid : ObjectId12) (w1 w2 : World),
    signin {| email := email0; name := name1 |} w
    = (Ok {| user_id := oid_str uid;
             token := uuid_str (uuid4_of (supply_peek (w_random w) 0)) |}, w1) /\
    signin {| email := email0; name := name2 |} w1
    = (Ok {| user_id := oid_str uid;
             token := uuid_str (uuid4_of (supply_peek (w_random w) 1)) |}, w2).
Proof.
  intros Hdb.
  destruct (signin_run {| email := email0; name := name1 |} w st Hdb)
    as (w1 & st1 & uid1 & Hrun1 & Hdb1 & Hfind1 & _ & Hrand1).
  destruct (signin_run {| email := email0; name := name2 |} w1 st1 Hdb1)
    as (w2 & st2 & uid2 & Hrun2 & _ & _ & Huid2 & _).
  cbn [email] in *.
  destruct (List.find (has_email email0) (users st1)) as [u|]; [|done].
  injection Hfind1 as Hu. subst uid1 uid2.
  rewrite Hrand1, supply_peek_next in Hrun2.
  by exists (user_oid u), w1, w2.
Qed.

(** C7, as stated, fails: nothing in [signin] compares the token it
    draws with the tokens issued before.  When [uuid4] gives the same
    UUID twice, two calls in a row with the same email return the same
    token. *)
Lemma signin_twice_same_token_counterexample :
  exists (r1 r2 : SignInResponse) (w1 w2 : World),
    signin {| email := pystr "ann@example.org"; name := None |}
           (repeating_world (Some empty_store)) = (Ok r1, w1) /\
    signin {| email := pystr "ann@example.org"; name := None |} w1 = (Ok r2, w2) /\
    user_id r1 = user_id r2 /\
    token r1 = pystr "00000000-0000-4000-8000-000000000007" /\
    token r2 = token r1.
Proof.
  destruct (signin_twice_run (pystr "ann@example.org") None None
              (repeating_world (Some empty_store)) empty_store eq_refl)
    as (uid & w1 & w2 & Hrun1 & Hrun2).
  eexists _, _, w1, w2. split; [exact Hrun1|]. split; [exact Hrun2|].
  cbn [user_id token]. split; [done|]. split; by vm_compute.
Qed.

(** C7, amended. Two calls of [signin] in a row with the same email, with
    the database configured, both succeed and give the same [user_id];
    each token is the string of the UUID drawn by its own call, and the
    two tokens differ exactly when these two UUIDs differ. *)
Theorem signin_twice_same_user (email0 : str) (name1 name2 : option str)
    (w : World) (st : Store) :
  db w = Some st ->
  exists (r1 r2 : SignInResponse) (w1 w2 : World),
    signin {| email := email0; name := name1 |} w = (Ok r1, w1) /\
    signin {| email := email0; name := name2 |} w1 = (Ok r2, w2) /\
    user_id r1 = user_id r2 /\
    token r1 = uuid_str (uuid4_of (supply_peek (w_random w) 0)) /\
    token r2 = uuid_str (uuid4_of (supply_peek (w_random w) 1)) /\
    (token r1 ≠ token r2 <->
     uuid4_of (supply_peek (w_random w) 0) ≠ uuid4_of (supply_peek (w_random w) 1)).
Proof.
  intros Hdb.
  destruct (signin_twice_run email0 name1 name2 w st Hdb)
    as (uid & w1 & w2 & Hrun1 & Hrun2).
  eexists _, _, w1, w2. split; [exact Hrun1|]. split; [exact Hrun2|].
  cbn [user_id token]. repeat split.
  - intros Htok Heq. apply Htok. by rewrite Heq.
  - intros Hfresh Heq. by apply uuid_str_inj in Heq.
Qed.

(** C7 at a concrete world: an empty store and a random source that counts. *)
Lemma signin_twice_same_user_witness :
  exists (r1 r2 : SignInResponse) (w1 w2 : World),
    signin {| email := pystr "ann@example.org"; name := None |}
           (sample_world (Some empty_store)) = (Ok r1, w1) /\
    signin {| email := pystr "ann@example.org"; name := Some (pystr "Ann") |} w1
    = (Ok r2, w2) /\
    user_id r1 = user_id r2 /\
    token r1 = uuid_str (uuid4_of 0) /\
    token r2 = uuid_str (uuid4_of 1) /\
    (token r1 ≠ token r2 <-> uuid4_of 0 ≠ uuid4_of 1).
Proof.
  apply (signin_twice_same_user (pystr "ann@example.org") None (Some (pystr "Ann"))
           (sample_world (Some empty_store)) empty_store).
  reflexivity.
Defined.

(** ** C8, C9, C10: saving and fetching profiles *)

Lemma find_slug_unused slug st :
  slug_unused slug st -> List.find (has_slug slug) (profiles st) = None.
Proof.
  unfold slug_unused. induction 1 as [|p r Hp _ IH]; [done|].
  cbn [List.find]. unfold has_slug at 1. by rewrite bool_decide_eq_false_2.
Qed.

Lemma find_slug_app_new slug (l : list ProfileDoc) p :
  List.find (has_slug slug) l = None -> has_slug slug p = true ->
  List.find (has_slug slug) (l ++ [p]) = Some p.
Proof.
  intros Hl Hp. induction l as [|a r IH]; simpl in *; [by rewrite Hp|].
  destruct (has_slug slug a); [done|]. by apply IH.
Qed.

(** [get_profile] reads the store and leaves the world as it is. *)
Lemma get_profile_run slug w st :
  db w = Some st ->
  get_profile slug w
  = (match List.find (has_slug slug) (profiles st) with
     | Some doc => Ok (view_of doc)
     | None => HTTPException 404 (pystr "Profile not found")
     end, w).
Proof.
  intros Hdb. unfold get_profile, find_one_profile, bind, require_db, ret, raise.
  unfold view_of. fold (has_slug slug). rewrite Hdb. cbn. rewrite Hdb. cbn.
  by destruct (List.find (has_slug slug) (profiles st)).
Qed.

(** What [save_profile] does with the database configured and a valid
    [user_id]: one profile is appended. *)
Lemma save_profile_run payload w st user_oid :
  db w = Some st ->
  ObjectId_of_str (sp_user_id payload) = Some user_oid ->
  save_profile payload w
  = (Ok {| profile_id := oid_str (supply_peek (w_oids w) 0); share_slug := next_slug w |},
     world_after_save w st (new_profile payload user_oid w)).
Proof.
  intros Hdb Hoid. unfold save_profile. unfold bind at 1, require_db at 1. rewrite Hdb, Hoid.
  unfold bind, ret, now, uuid4, insert_one_profile, new_object_id, require_db, set_store,
    bind, ret. cbn. rewrite Hdb.
  unfold world_after_save, new_profile, next_slug. cbn. unfold supply_peek.
  replace (S (supply_pos (w_clock w) + 0)) with (supply_pos (w_clock w) + 1)%nat by lia.
  done.
Qed.

Lemma next_slug_shape w :
  length (next_slug w) = 10%nat /\ Forall (fun c => is_lower_hex c = true) (next_slug w).
Proof.
  unfold next_slug, uuid_hex. split.
  - rewrite length_take. pose proof (format_0x_length 32 (uuid4_of (supply_peek (w_random w) 0))).
    lia.
  - apply Forall_take, format_0x_lower.
Qed.

(** C9. With the database configured, [get_profile] of a slug that no
    stored profile has raises [HTTPException] 404 and changes nothing. *)
Theorem get_profile_unknown_slug (slug : str) (w : World) (st : Store) :
  db w = Some st ->
  (forall p, p ∈ profiles st -> profile_share_slug p ≠ slug) ->
  get_profile slug w = (HTTPException 404 (pystr "Profile not found"), w).
Proof.
  intros Hdb Hno. rewrite (get_profile_run slug w st Hdb).
  rewrite find_slug_unused; [done|]. by apply Forall_forall.
Qed.

(** Every successful [save_profile] is the run of [save_profile_run]. *)
Lemma save_profile_ok payload w resp w' :
  save_profile payload w = (Ok resp, w') ->
  exists st user_oid,
    db w = Some st /\
    ObjectId_of_str (sp_user_id payload) = Some user_oid /\
    resp = {| profile_id := oid_str (supply_peek (w_oids w) 0); share_slug := next_slug w |} /\
    w' = world_after_save w st (new_profile payload user_oid w).
Proof.
  destruct (db w) as [st|] eqn:Hdb.
  - destruct (ObjectId_of_str (sp_user_id payload)) as [user_oid|] eqn:Hoid.
    + rewrite (save_profile_run payload w st user_oid Hdb Hoid).
      intros Hrun. exists st, user_oid.
      assert (Hpair : forall (a b : SaveProfileResponse) (u v : World),
                 (Ok a, u) = (Ok b, v) -> b = a /\ v = u) by (by intros a b u v [= -> ->]).
      by destruct (Hpair _ _ _ _ Hrun) as [-> ->].
    + unfold save_profile. unfold bind at 1, require_db at 1. rewrite Hdb, Hoid.
      intros Hrun. by injection Hrun as Hr _.
  - unfold save_profile. unfold bind at 1, require_db at 1. rewrite Hdb.
    intros Hrun. by injection Hrun as Hr _.
Qed.

(** [save_profile] stores nothing when it raises. *)
Lemma save_profile_error payload w code detail w' :
  save_profile payload w = (HTTPException code detail, w') -> w' = w.
Proof.
  destruct (db w) as [st|] eqn:Hdb.
  - destruct (ObjectId_of_str (sp_user_id payload)) as [user_oid|] eqn:Hoid.
    + rewrite (save_profile_run payload w st user_oid Hdb Hoid).
      intros Hrun. by injection Hrun as Hr _.
    + unfold save_profile. unfold bind at 1, require_db at 1. rewrite Hdb, Hoid.
      intros Hrun. by apply (f_equal snd) in Hrun.
  - unfold save_profile. unfold bind at 1, require_db at 1. rewrite Hdb.
    intros Hrun. by apply (f_equal snd) in Hrun.
Qed.

(** C10. Every [save_profile] that succeeds, whatever [user_id] it
    accepted, adds exactly one profile; its [share_slug] is the one
    returned, the first 10 characters of the hexadecimal form of the UUID
    drawn: 10 characters, each a lowercase hexadecimal digit. *)
Theorem save_profile_slug_shape (payload : SaveProfileRequest) (w w' : World)
    (resp : SaveProfileResponse) :
  save_profile payload w = (Ok resp, w') ->
  exists (st : Store) (doc : ProfileDoc),
    db w = Some st /\
    db w' = Some {| users := users st; sessions := sessions st;
                    profiles := profiles st ++ [doc] |} /\
    profile_share_slug doc = share_slug resp /\
    share_slug resp = take 10 (uuid_hex (uuid4_of (supply_peek (w_random w) 0))) /\
    length (share_slug resp) = 10%nat /\
    Forall (fun c => is_lower_hex c = true) (share_slug resp).
Proof.
  intros Hrun.
  destruct (save_profile_ok payload w resp w' Hrun) as (st & user_oid & Hdb & _ & -> & ->).
  exists st, (new_profile payload user_oid w).
  split; [done|]. split; [reflexivity|]. cbn [share_slug profile_share_slug new_profile].
  split; [done|]. split; [done|]. apply next_slug_shape.
Qed.

(** C8, as stated, fails: when the slug drawn by a save is the slug of a
    profile stored earlier, fetching by the returned slug gives the
    earlier profile, whose content is not the content just saved. *)
Lemma save_then_get_counterexample :
  exists (resp : SaveProfileResponse) (w' : World) (view : ProfileView),
    save_profile (sample_request "New profile")
                 (sample_world (Some store_with_earlier_profile)) = (Ok resp, w') /\
    get_profile (share_slug resp) w' = (Ok view, w') /\
    pv_id view ≠ profile_id resp /\
    pv_content view = sample_content "Earlier profile" /\
    pv_content view ≠ content (sample_request "New profile").
Proof.
  eexists _, _, _. split; [by vm_compute|]. split; [by vm_compute|].
  split; [by vm_compute|]. split; [reflexivity|]. by vm_compute.
Qed.

(** C8, amended. After any [save_profile] that succeeded, whatever
    [user_id] it accepted, with a slug that no profile stored before
    has, [get_profile] of the returned slug gives the saved content.
    Its [_id] is the returned [profile_id], 24 hexadecimal digits, and
    its [user_id] is the hexadecimal text of the bytes that [ObjectId]
    read from the [user_id] of the request. *)
Theorem save_then_get_profile (payload : SaveProfileRequest) (w w' : World) (st : Store)
    (resp : SaveProfileResponse) :
  db w = Some st ->
  save_profile payload w = (Ok resp, w') ->
  (forall p, p ∈ profiles st -> profile_share_slug p ≠ share_slug resp) ->
  exists (view : ProfileView) (user_oid : ObjectId),
    get_profile (share_slug resp) w' = (Ok view, w') /\
    pv_content view = content payload /\
    pv_share_slug view = share_slug resp /\
    pv_id view = profile_id resp /\
    length (pv_id view) = 24%nat /\
    Forall (fun c => is_lower_hex c = true) (pv_id view) /\
    ObjectId_of_str (sp_user_id payload) = Some user_oid /\
    pv_user_id view = oid_str user_oid /\
    Forall (fun c => is_lower_hex c = true) (pv_user_id view).
Proof.
  intros Hdb Hrun Hfresh.
  destruct (save_profile_ok payload w resp w' Hrun) as (st0 & user_oid & Hdb0 & Hoid & -> & ->).
  rewrite Hdb in Hdb0. injection Hdb0 as <-. cbn [share_slug] in Hfresh.
  exists (view_of (new_profile payload user_oid w)), user_oid.
  split.
  - cbn [share_slug]. erewrite get_profile_run by reflexivity. cbn [profiles].
    rewrite (find_slug_app_new (next_slug w) (profiles st) (new_profile payload user_oid w)).
    + done.
    + apply find_slug_unused. by apply Forall_forall.
    + unfold has_slug. cbn [profile_share_slug new_profile]. by apply bool_decide_eq_true_2.
  - cbn. repeat split; try done.
    + apply oid_str_length.
    + apply oid_str_lower_hex.
    + apply oid_str_lower_hex.
Qed.

(** C8, amended, at a concrete world. *)
Lemma save_then_get_profile_witness :
  exists (view : ProfileView) (user_oid : ObjectId),
    get_profile (pystr "0000000000")
      (world_after_save (sample_world (Some empty_store)) empty_store
         (new_profile (sample_request "New profile") sample_user_oid
            (sample_world (Some empty_store))))
    = (Ok view,
       world_after_save (sample_world (Some empty_store)) empty_store
         (new_profile (sample_request "New profile") sample_user_oid
            (sample_world (Some empty_store)))) /\
    pv_content view = sample_content "New profile" /\
    pv_share_slug view = pystr "0000000000" /\
    pv_id view = pystr "000000000000000000000001" /\
    length (pv_id view) = 24%nat /\
    Forall (fun c => is_lower_hex c = true) (pv_id view) /\
    ObjectId_of_str sample_user_id = Some user_oid /\
    pv_user_id view = oid_str user_oid /\
    Forall (fun c => is_lower_hex c = true) (pv_user_id view).
Proof.
  apply (save_then_get_profile (sample_request "New profile")
           (sample_world (Some empty_store))
           (world_after_save (sample_world (Some empty_store)) empty_store
              (new_profile (sample_request "New profile") sample_user_oid
                 (sample_world (Some empty_store))))
           empty_store
           {| profile_id := pystr "000000000000000000000001";
              share_slug := pystr "0000000000" |}).
  - reflexivity.
  - by vm_compute.
  - intros p Hp. by apply elem_of_nil in Hp.
Defined.

(** C9 at a concrete world. *)
Lemma get_profile_unknown_slug_witness :
  get_profile (pystr "ffffffffff") (sample_world (Some store_with_earlier_profile))
  = (HTTPException 404 (pystr "Profile not found"),
     sample_world (Some store_with_earlier_profile)).
Proof.
  apply (get_profile_unknown_slug (pystr "ffffffffff")
           (sample_world (Some store_with_earlier_profile)) store_with_earlier_profile).
  - reflexivity.
  - intros p Hp. apply list_elem_of_singleton in Hp as ->. by vm_compute.
Defined.

(** C10 at a concrete world, for a [user_id] with white space. *)
Lemma save_profile_slug_shape_witness :
  exists (st : Store) (doc : ProfileDoc),
    db (sample_world (Some empty_store)) = Some st /\
    db (world_after_save (sample_world (Some empty_store)) empty_store
          (new_profile spaced_request spaced_user_oid (sample_world (Some empty_store))))
    = Some {| users := users st; sessions := sessions st;
              profiles := profiles st ++ [doc] |} /\
    profile_share_slug doc = pystr "0000000000" /\
    pystr "0000000000" = take 10 (uuid_hex (uuid4_of 0)) /\
    length (pystr "0000000000") = 10%nat /\
    Forall (fun c => is_lower_hex c = true) (pystr "0000000000").
Proof.
  apply (save_profile_slug_shape spaced_request (sample_world (Some empty_store))
           (world_after_save (sample_world (Some empty_store)) empty_store
              (new_profile spaced_request spaced_user_oid (sample_world (Some empty_store))))
           {| profile_id := pystr "000000000000000000000001";
              share_slug := pystr "0000000000" |}).
  by vm_compute.
Defined.

(** ** Keywords: how many, which, and which are left out *)

Lemma keywords_ranked text :
  keywords text
  = fst <$> take 10 (sorted_by_count_desc
                       (frequency_table (filter (fun w => (4 <= length w)%nat)
                                                (letter_runs (lower text))))).
Proof. unfold keywords. by rewrite findall_letter_runs, count_words_table. Qed.

Lemma frequency_table_keys ws : fst <$> frequency_table ws = first_seen ws.
Proof.
  unfold frequency_table. rewrite <- list_fmap_compose.
  rewrite <- (list_fmap_id (first_seen ws)) at 2. by apply list_fmap_ext.
Qed.

Lemma ranked_keys ws :
  fst <$> sorted_by_count_desc (frequency_table ws) ≡ₚ first_seen ws.
Proof. by rewrite sorted_by_count_desc_perm, frequency_table_keys. Qed.

Lemma elem_of_ranked ws (w : str) (n : nat) :
  (w, n) ∈ sorted_by_count_desc (frequency_table ws) <->
  w ∈ ws /\ n = occurrences w ws.
Proof.
  rewrite sorted_by_count_desc_perm. unfold frequency_table.
  rewrite list_elem_of_fmap. split.
  - intros (v & Heq & Hv). inversion Heq; subst. by rewrite <- elem_of_first_seen.
  - intros [Hw ->]. exists w. by rewrite elem_of_first_seen.
Qed.

Lemma elem_of_keywords_words text k :
  k ∈ keywords text ->
  k ∈ filter (fun w => (4 <= length w)%nat) (letter_runs (lower text)).
Proof.
  rewrite keywords_ranked. intros Hk.
  apply list_elem_of_fmap in Hk as ([w n] & -> & Hin).
  apply (subseteq_take 10) in Hin. by apply elem_of_ranked in Hin as [Hin _].
Qed.

(** X1. [keywords] gives at most 10 keywords, and no keyword twice. *)
Theorem keywords_bounded_distinct (text : str) :
  (length (keywords text) <= 10)%nat /\ NoDup (keywords text).
Proof.
  rewrite keywords_ranked. split.
  - rewrite length_fmap. apply firstn_le_length.
  - rewrite fmap_take. eapply sublist_NoDup; [|apply sublist_take].
    rewrite ranked_keys. apply NoDup_first_seen.
Qed.

Lemma lower_char_no_upper c : Forall (fun a => is_upper_ascii a = false) (lower_char c).
Proof.
  unfold lower_char. destruct (is_upper_ascii c) eqn:Hu.
  - repeat constructor. unfold is_upper_ascii, in_range in *.
    apply andb_true_iff in Hu as [H1 H2]. apply N.leb_le in H1, H2.
    apply andb_false_iff. right. apply N.leb_gt. lia.
  - destruct (c =? 0x130); [by repeat constructor|].
    destruct (c =? 0x212A); by repeat constructor.
Qed.

Lemma lower_no_upper s : Forall (fun a => is_upper_ascii a = false) (lower s).
Proof.
  unfold lower. induction s as [|c r IH]; [constructor|].
  cbn [flat_map]. apply Forall_app. split; [apply lower_char_no_upper|done].
Qed.

Lemma runs_of_elem s ws w :
  runs_of s ws -> w ∈ ws ->
  Forall (fun c => is_ascii_letter c = true) w /\
  exists pre post, s = pre ++ w ++ post.
Proof.
  induction 1 as [|c s ws Hc _ IH|v s ws Hne Hv Hs _ IH]; intros Hw.
  - by apply elem_of_nil in Hw.
  - destruct (IH Hw) as (Hl & pre & post & ->). split; [done|].
    by exists (c :: pre), post.
  - apply elem_of_cons in Hw as [->|Hw].
    + split; [done|]. by exists [], s.
    + destruct (IH Hw) as (Hl & pre & post & ->). split; [done|].
      exists (v ++ pre), post. by rewrite <- app_assoc.
Qed.

Lemma starts_with_app p s : starts_with p (p ++ s) = true.
Proof. induction p as [|a p IH]; [done|]. simpl. by rewrite N.eqb_refl. Qed.

Lemma contains_app pre w post : contains w (pre ++ w ++ post) = true.
Proof.
  induction pre as [|a pre IH].
  - destruct (w ++ post) eqn:E; simpl; rewrite <- E, starts_with_app; done.
  - cbn [app contains]. rewrite IH. apply orb_true_r.
Qed.

(** X2. Every keyword has at least 4 code points, all of them lowercase
    ASCII letters, and occurs in the lowered text. *)
Theorem keywords_are_lowercase_words (text k : str) :
  k ∈ keywords text ->
  (4 <= length k)%nat /\
  Forall (fun c => is_lower_ascii c = true) k /\
  contains k (lower text) = true.
Proof.
  intros Hk. apply elem_of_keywords_words in Hk.
  apply list_elem_of_filter in Hk as [Hlen Hrun].
  destruct (runs_of_elem _ _ _ (letter_runs_maximal (lower text)) Hrun)
    as (Hletters & pre & post & Heq).
  split; [done|]. split.
  - pose proof (lower_no_upper text) as Hlow. rewrite Heq in Hlow.
    apply Forall_app in Hlow as [_ Hlow]. apply Forall_app in Hlow as [Hlow _].
    apply Forall_forall. intros c Hc.
    pose proof (proj1 (Forall_forall _ _) Hletters c Hc) as H1.
    pose proof (proj1 (Forall_forall _ _) Hlow c Hc) as H2.
    unfold is_ascii_letter in H1. simpl in H2. by rewrite H2 in H1.
  - rewrite Heq. apply contains_app.
Qed.

Lemma keywords_are_lowercase_words_witness :
  (4 <= length (pystr "python"))%nat /\
  Forall (fun c => is_lower_ascii c = true) (pystr "python") /\
  contains (pystr "python") (lower (pystr "Python, PYTHON and sql")) = true.
Proof.
  apply (keywords_are_lowercase_words (pystr "Python, PYTHON and sql") (pystr "python")).
  apply (bool_decide_eq_true_1 _). by vm_compute.
Defined.

Lemma sorted_app_elem {A} (R : A -> A -> Prop) (l1 l2 : list A) (x y : A) :
  StronglySorted R (l1 ++ l2) -> x ∈ l1 -> y ∈ l2 -> R x y.
Proof.
  induction l1 as [|a l1 IH]; intros Hs Hx Hy; [by apply elem_of_nil in Hx|].
  cbn [app] in Hs. apply StronglySorted_inv in Hs as [Hs Ha].
  apply elem_of_cons in Hx as [->|Hx]; [|by apply IH].
  apply (proj1 (Forall_forall _ _) Ha). apply elem_of_app. by right.
Qed.

(** X3. No run left out is more frequent than a keyword: a run of at
    least 4 letters that occurs more often than some keyword is a keyword
    itself. *)
Theorem keywords_most_frequent (text k w : str) :
  let words := filter (fun v => (4 <= length v)%nat) (letter_runs (lower text)) in
  k ∈ keywords text -> w ∈ words ->
  (occurrences k words < occurrences w words)%nat ->
  w ∈ keywords text.
Proof.
  intros words Hk Hw Hlt. rewrite keywords_ranked in *. fold words in Hk |- *.
  set (ranked := sorted_by_count_desc (frequency_table words)) in *.
  apply list_elem_of_fmap in Hk as ([k' nk] & Hk' & Hk). simpl in Hk'. subst k'.
  pose proof (subseteq_take 10 ranked _ Hk) as Hk_all.
  apply elem_of_ranked in Hk_all as [_ ->].
  assert (Hw_all : (w, occurrences w words) ∈ ranked) by (by apply elem_of_ranked).
  rewrite <- (take_drop 10 ranked) in Hw_all.
  apply elem_of_app in Hw_all as [Hin|Hout].
  - apply list_elem_of_fmap. by exists (w, occurrences w words).
  - pose proof (sorted_by_count_desc_sorted (frequency_table words)) as Hsorted.
    fold ranked in Hsorted. rewrite <- (take_drop 10 ranked) in Hsorted.
    pose proof (sorted_app_elem _ _ _ _ _ Hsorted Hk Hout) as Hge.
    unfold count_ge in Hge. simpl in Hge. lia.
Qed.

Lemma keywords_most_frequent_witness :
  pystr "gamma" ∈ keywords (pystr "alpha beta gamma gamma").
Proof.
  apply (keywords_most_frequent (pystr "alpha beta gamma gamma") (pystr "alpha")
           (pystr "gamma")).
  - apply (bool_decide_eq_true_1 _). by vm_compute.
  - apply (bool_decide_eq_true_1 _). by vm_compute.
  - vm_compute. lia.
Defined.

(** ** Bullets, title and the empty overlap *)

Lemma scan_keywords_cases ks line bs :
  scan_keywords ks line bs = bs \/
  exists k, k ∈ ks /\ contains k (lower line) = true /\
            scan_keywords ks line bs = bs ++ [bullet_of k line].
Proof.
  induction ks as [|k ks IH]; simpl; [by left|].
  destruct (contains k (lower line)) eqn:Hc; simpl.
  - destruct (length bs <? 8)%nat.
    + right. exists k. split; [by left|done].
    + destruct IH as [IH|(k' & Hk' & Hc' & IH)]; [by left|].
      right. exists k'. split; [by right|done].
  - destruct IH as [IH|(k' & Hk' & Hc' & IH)]; [by left|].
    right. exists k'. split; [by right|done].
Qed.

Lemma fold_scan_from_lines (R : str -> str -> Prop) ks lines :
  (forall k line, k ∈ ks -> contains k (lower line) = true -> R (bullet_of k line) line) ->
  forall bs used0, Forall2 R bs used0 ->
  exists used1, used1 `sublist_of` lines /\
    Forall2 R (fold_left (fun bullets line => scan_keywords ks line bullets) lines bs)
            (used0 ++ used1).
Proof.
  intros HR. induction lines as [|l lines IH]; intros bs used0 Hbs; simpl.
  - exists []. split; [done|]. by rewrite app_nil_r.
  - destruct (scan_keywords_cases ks l bs) as [->|(k & Hk & Hc & ->)].
    + destruct (IH bs used0 Hbs) as (used1 & Hsub & HF).
      exists used1. split; [by apply sublist_cons|done].
    + destruct (IH (bs ++ [bullet_of k l]) (used0 ++ [l])) as (used1 & Hsub & HF).
      { apply Forall2_app; [done|]. constructor; [by apply HR|constructor]. }
      exists (l :: used1). split; [by apply sublist_skip|].
      by rewrite <- app_assoc in HF.
Qed.

Lemma split_from_tokens cur s :
  Forall (fun c => is_space c = false) cur -> Forall is_token (split_from cur s).
Proof.
  assert (Htok : forall cur, cur ≠ [] -> Forall (fun c => is_space c = false) cur ->
                             is_token (rev cur)).
  { intros c Hne Hc. split; [|by apply Forall_rev].
    intros Hr. apply (f_equal (@rev N)) in Hr. rewrite rev_involutive in Hr. done. }
  revert cur. induction s as [|c r IH]; intros cur Hcur; simpl.
  - destruct cur as [|a cur]; [constructor|]. constructor; [by apply Htok|constructor].
  - destruct (is_space c) eqn:Hc.
    + destruct cur as [|a cur]; [by apply IH|].
      constructor; [by apply Htok|]. by apply IH.
    + apply IH. by constructor.
Qed.

Lemma split_tokens s : Forall is_token (split s).
Proof. by apply split_from_tokens. Qed.

Lemma split_from_nil cur s : split_from cur s = [] -> cur = [] /\ blank s.
Proof.
  revert cur. induction s as [|c r IH]; intros cur; simpl.
  - destruct cur; [by split; [|constructor]|done].
  - destruct (is_space c) eqn:Hc.
    + destruct cur; [|done]. intros H. apply IH in H as [_ H]. split; [done|by constructor].
    + intros H. by apply IH in H as [? _].
Qed.

Lemma join_tokens_nonempty ws : ws ≠ [] -> Forall is_token ws -> join (pystr " ") ws ≠ [].
Proof.
  destruct ws as [|w ws]; [done|]. intros _ Hw. apply Forall_cons in Hw as [[Hne _] _].
  cbn [join]. destruct ws; [done|]. by destruct w.
Qed.

(** X4. The title is never empty and has at least 1 and at most 6
    whitespace-separated tokens. *)
Theorem title_has_one_to_six_tokens (set_iter : set_site -> gset str -> list str)
    (jd um : str) :
  let t := title (simple_ai_generate set_iter jd um) in
  t ≠ [] /\ (1 <= length (split t) <= 6)%nat.
Proof.
  cbn zeta. rewrite title_formula. unfold first_nonblank_line.
  destruct (List.find _ (splitlines jd)) as [line|] eqn:Hfind.
  - apply find_some in Hfind as [_ Hnb]. apply negb_true_iff in Hnb.
    assert (Hne : split line ≠ []).
    { intros Hs. apply split_from_nil in Hs as [_ Hb]. apply blankb_spec in Hb. congruence. }
    pose proof (split_tokens line) as Htok.
    assert (Htake : Forall is_token (take 6 (split line))) by (by apply Forall_take).
    assert (Hne6 : take 6 (split line) ≠ []) by (by destruct (split line)).
    split; [by apply join_tokens_nonempty|].
    rewrite split_join_tokens by done. rewrite length_take.
    destruct (split line); [done|]. cbn [length]. lia.
  - split; [done|]. vm_compute. lia.
Qed.

Section GeneratedBullets.

Variable set_iter : set_site -> gset str -> list str.
Hypothesis set_iter_elements : forall site s, set_iter site s ≡ₚ elements s.

(** X5. The bullets are the fallback bullet alone, or each bullet comes
    from a line of its own among the first 12 stripped lines of the user
    material, in the order of the lines: it names a keyword of the job
    description that the lowered line contains, followed by the first 140
    code points of the line. *)
Theorem bullets_from_lines (jd um : str) :
  let gc := simple_ai_generate set_iter jd um in
  bullets gc = [fallback_bullet (set_iter UmKw (list_to_set (keywords um)))] \/
  exists used : list str,
    used `sublist_of` take 12 (stripped_lines um) /\
    Forall2 (bullet_from jd) (bullets gc) used.
Proof.
  cbn zeta. cbn [bullets simple_ai_generate].
  destruct (fold_scan_from_lines (bullet_from jd)
              (take 8 (set_iter JdKw (list_to_set (keywords jd))))
              (take 12 (stripped_lines um))) with (bs := @nil str) (used0 := @nil str)
    as (used & Hsub & HF).
  - intros k line Hk Hc. exists k. split; [|done].
    apply (subseteq_take 8) in Hk. rewrite set_iter_elements, elem_of_elements in Hk.
    by apply elem_of_list_to_set in Hk.
  - constructor.
  - fold (collect_bullets set_iter (list_to_set (keywords jd)) (stripped_lines um)) in HF.
    destruct (collect_bullets set_iter (list_to_set (keywords jd)) (stripped_lines um))
      as [|b bs] eqn:Hcb; [by left|].
    right. by exists used.
Qed.

(** X6. When the two texts have no keyword in common, the summary and the
    cover letter name no keyword: their keyword slot is empty. *)
Theorem no_overlap_empty_slot (jd um : str) :
  (forall k, k ∈ keywords jd -> k ∉ keywords um) ->
  let gc := simple_ai_generate set_iter jd um in
  summary gc = summary_template [] /\ cover_letter gc = cover_letter_template [].
Proof.
  intros Hdisj. cbn zeta. cbn [summary cover_letter simple_ai_generate].
  assert (Hempty : set_iter Overlap (list_to_set (keywords jd) ∩ list_to_set (keywords um)) = []).
  { apply Permutation_nil_r. rewrite set_iter_elements.
    replace (list_to_set (keywords jd) ∩ list_to_set (keywords um)) with (∅ : gset str).
    - by rewrite elements_empty.
    - symmetry. apply set_eq. intros k. rewrite elem_of_intersection, !elem_of_list_to_set.
      split; [|by intros ?%not_elem_of_empty]. intros [H1 H2]. by apply Hdisj in H1. }
  rewrite Hempty. done.
Qed.

End GeneratedBullets.

Lemma bullets_from_lines_witness :
  let gc := simple_ai_generate elements_order seven_keywords
              (pystr "Ran Docker and Kubernetes clusters") in
  bullets gc = [fallback_bullet (elements_order UmKw
                                   (list_to_set (keywords (pystr "Ran Docker and Kubernetes clusters"))))] \/
  exists used : list str,
    used `sublist_of` take 12 (stripped_lines (pystr "Ran Docker and Kubernetes clusters")) /\
    Forall2 (bullet_from seven_keywords) (bullets gc) used.
Proof.
  apply (bullets_from_lines elements_order elements_order_elements seven_keywords
           (pystr "Ran Docker and Kubernetes clusters")).
Defined.

Lemma no_overlap_empty_slot_witness :
  let gc := simple_ai_generate elements_order seven_keywords gardening in
  summary gc = summary_template [] /\ cover_letter gc = cover_letter_template [].
Proof.
  apply (no_overlap_empty_slot elements_order elements_order_elements seven_keywords gardening).
  intros k Hk Hg.
  assert (H : bool_decide (k ∈ keywords seven_keywords /\ k ∈ keywords gardening) = true)
    by (by apply bool_decide_eq_true_2).
  revert H. apply not_true_iff_false.
  assert (Hall : forallb (fun k => negb (bool_decide (k ∈ keywords gardening)))
                         (keywords seven_keywords) = true) by (by vm_compute).
  rewrite forallb_forall in Hall. apply list_elem_of_In in Hk.
  specialize (Hall k Hk). apply negb_true_iff, bool_decide_eq_false_1 in Hall. done.
Defined.

(** ** Handlers without a database, and handlers that only read *)

(** X7. Without a configured database, [signin], [extract_text],
    [save_profile] and [get_profile] all raise [HTTPException] 500 with
    the same detail, and nothing is drawn, stored or changed. *)
Theorem handlers_require_db (w : World) (sign : SignInRequest) (parsers : Parsers)
    (file : UploadFile) (save : SaveProfileRequest) (slug : str) :
  db w = None ->
  signin sign w = (HTTPException 500 (pystr "Database not configured"), w) /\
  extract_text parsers file w = (HTTPException 500 (pystr "Database not configured"), w) /\
  save_profile save w = (HTTPException 500 (pystr "Database not configured"), w) /\
  get_profile slug w = (HTTPException 500 (pystr "Database not configured"), w).
Proof.
  intros Hdb.
  unfold signin, extract_text, save_profile, get_profile.
  repeat split; unfold bind at 1; unfold require_db at 1; by rewrite Hdb.
Qed.

Lemma handlers_require_db_witness :
  signin {| email := pystr "ann@example.org"; name := None |} (sample_world None)
  = (HTTPException 500 (pystr "Database not configured"), sample_world None) /\
  extract_text no_parsers (upload "notes.txt" hello_world) (sample_world None)
  = (HTTPException 500 (pystr "Database not configured"), sample_world None) /\
  save_profile (sample_request "New profile") (sample_world None)
  = (HTTPException 500 (pystr "Database not configured"), sample_world None) /\
  get_profile (pystr "0000000000") (sample_world None)
  = (HTTPException 500 (pystr "Database not configured"), sample_world None).
Proof.
  apply (handlers_require_db (sample_world None)
           {| email := pystr "ann@example.org"; name := None |} no_parsers
           (upload "notes.txt" hello_world) (sample_request "New profile")
           (pystr "0000000000")).
  reflexivity.
Defined.

(** ** Uploads: parsers, errors and trimmed text *)

Lemma lstrip_fixed s : (s = [] \/ exists c r, s = c :: r /\ is_space c = false) -> lstrip s = s.
Proof. intros [->|(c & r & -> & Hc)]; [done|]. simpl. by rewrite Hc. Qed.

Lemma lstrip_shape s : lstrip s = [] \/ exists c r, lstrip s = c :: r /\ is_space c = false.
Proof.
  destruct (lstrip s) as [|c r] eqn:Hs; [by left|].
  right. exists c, r. split; [done|]. by eapply lstrip_head.
Qed.

Lemma lstrip_idemp s : lstrip (lstrip s) = lstrip s.
Proof. apply lstrip_fixed, lstrip_shape. Qed.

Lemma rstrip_idemp s : rstrip (rstrip s) = rstrip s.
Proof. unfold rstrip. by rewrite rev_involutive, lstrip_idemp. Qed.

Lemma lstrip_rstrip_fixed t : lstrip t = t -> lstrip (rstrip t) = rstrip t.
Proof.
  intros Ht. apply lstrip_fixed.
  destruct (rstrip t) as [|c r] eqn:Hr; [by left|]. right. exists c, r. split; [done|].
  destruct (rstrip_prefix t) as (post & Heq & _). rewrite Hr in Heq.
  destruct (lstrip_shape t) as [Hn|(c' & r' & Hc & Hsp)]; rewrite Ht in *.
  - by rewrite Hn in Heq.
  - rewrite Hc in Heq. by inversion Heq; subst.
Qed.

(** [strip] is idempotent: a stripped text has no whitespace left at
    either end. *)
Lemma strip_idemp s : strip (strip s) = strip s.
Proof.
  unfold strip. rewrite (lstrip_rstrip_fixed (lstrip s)) by apply lstrip_idemp.
  apply rstrip_idemp.
Qed.

(** What [extract_text] answers and leaves with the database configured,
    by the extension of the upload. *)
Lemma extract_text_run parsers file w st :
  db w = Some st ->
  extract_text parsers file w =
  if bool_decide (extension_of (filename file) = pystr "pdf") then
    (match PdfReader parsers with
     | None => HTTPException 400 (pystr "PDF support not available")
     | Some reader =>
         match reader (file_bytes file) with
         | inl e => HTTPException 400 (pystr "Failed to read file: " ++ take 120 e)
         | inr pages => Ok {| text := strip (join nl (omap id pages)) |}
         end
     end, w)
  else if bool_decide (extension_of (filename file) = pystr "docx")
          || bool_decide (extension_of (filename file) = pystr "doc") then
    match docx parsers with
    | None => (HTTPException 400 (pystr "DOCX support not available"), w)
    | Some document =>
        (match document (next_tmp_name w) (file_bytes file) with
         | inl e => HTTPException 400 (pystr "Failed to read file: " ++ take 120 e)
         | inr paragraphs => Ok {| text := strip (join nl paragraphs) |}
         end, world_after_upload w (file_bytes file))
    end
  else (Ok {| text := decode_utf8_ignore (file_bytes file) |}, w).
Proof.
  intros Hdb. unfold extract_text, extension_of.
  unfold bind at 1. unfold require_db. rewrite Hdb.
  fold dot. rewrite split_on_last_dot.
  replace (match filename file with Some f => f | None => [] end)
    with (default [] (filename file)) by (by destruct (filename file)).
  unfold raise, ret, bind, NamedTemporaryFile, world_after_upload, next_tmp_name.
  repeat match goal with
         | |- context [if ?b then _ else _] => destruct b
         | |- context [match ?x with _ => _ end] => destruct x
         end; done.
Qed.

Lemma extract_text_no_db parsers file w :
  db w = None ->
  extract_text parsers file w = (HTTPException 500 (pystr "Database not configured"), w).
Proof.
  intros Hdb. unfold extract_text. unfold bind at 1. unfold require_db. by rewrite Hdb.
Qed.

(** X9. With the database configured, every error of [extract_text] is a
    400.  Its detail says that the parser package is missing, or it is
    ["Failed to read file: "] followed by at most 120 code points of the
    parser's message; it never has more than 141 code points. *)
Theorem extract_text_errors (parsers : Parsers) (file : UploadFile) (w w' : World)
    (st : Store) (code : N) (detail : str) :
  db w = Some st ->
  extract_text parsers file w = (HTTPException code detail, w') ->
  code = 400 /\ (length detail <= 141)%nat /\
  ((detail = pystr "PDF support not available" /\ PdfReader parsers = None) \/
   (detail = pystr "DOCX support not available" /\ docx parsers = None) \/
   exists e, detail = pystr "Failed to read file: " ++ take 120 e).
Proof.
  intros Hdb. rewrite (extract_text_run parsers file w st Hdb).
  assert (Hfail : forall e : str,
             (length (pystr "Failed to read file: " ++ take 120 e) <= 141)%nat).
  { intros e. rewrite length_app, length_take.
    change (length (pystr "Failed to read file: ")) with 21%nat. lia. }
  assert (Hout : forall (r : result ExtractResponse) (d : str) (w0 : World),
             r = HTTPException 400 d -> (r, w0) = (HTTPException code detail, w') ->
             code = 400 /\ detail = d).
  { intros r d w0 -> Heq. injection Heq as <- <- _. done. }
  destruct (bool_decide (extension_of (filename file) = pystr "pdf")).
  - destruct (PdfReader parsers) as [reader|] eqn:Hp.
    + destruct (reader (file_bytes file)) as [e|pages];
        [|by intros Hrun; injection Hrun as Hr _].
      intros Hrun. destruct (Hout _ _ _ eq_refl Hrun) as [-> ->].
      split; [done|]. split; [apply Hfail|]. right. right. by exists e.
    + intros Hrun. destruct (Hout _ _ _ eq_refl Hrun) as [-> ->].
      split; [done|]. split; [vm_compute; lia|]. by left.
  - destruct (_ || _).
    + destruct (docx parsers) as [document|] eqn:Hd.
      * destruct (document (next_tmp_name w) (file_bytes file)) as [e|paragraphs];
          [|by intros Hrun; injection Hrun as Hr _].
        intros Hrun. destruct (Hout _ _ _ eq_refl Hrun) as [-> ->].
        split; [done|]. split; [apply Hfail|]. right. right. by exists e.
      * intros Hrun. destruct (Hout _ _ _ eq_refl Hrun) as [-> ->].
        split; [done|]. split; [vm_compute; lia|]. right. by left.
    + intros Hrun. by injection Hrun as Hr _.
Qed.

Lemma extract_text_errors_witness :
  400 = 400 /\
  (length (pystr "Failed to read file: File is not a zip file") <= 141)%nat /\
  ((pystr "Failed to read file: File is not a zip file" = pystr "PDF support not available"
    /\ PdfReader zip_only_parsers = None) \/
   (pystr "Failed to read file: File is not a zip file" = pystr "DOCX support not available"
    /\ docx zip_only_parsers = None) \/
   exists e, pystr "Failed to read file: File is not a zip file"
             = pystr "Failed to read file: " ++ take 120 e).
Proof.
  apply (extract_text_errors zip_only_parsers (upload "cv.doc" hello_world)
           (sample_world (Some empty_store))
           (world_after_upload (sample_world (Some empty_store)) (encode_utf8 hello_world))
           empty_store).
  - reflexivity.
  - by vm_compute.
Defined.

(** X10. A PDF page whose text extraction raises is skipped: the answer
    is the one for the document without that page. *)
Theorem pdf_failing_page_skipped (reader1 reader2 : bytes -> str + list (option str))
    (docx_parser : option (str -> bytes -> str + list str)) (file : UploadFile) (w : World)
    (before after : list (option str)) :
  reader1 (file_bytes file) = inr (before ++ None :: after) ->
  reader2 (file_bytes file) = inr (before ++ after) ->
  extract_text {| PdfReader := Some reader1; docx := docx_parser |} file w
  = extract_text {| PdfReader := Some reader2; docx := docx_parser |} file w.
Proof.
  intros H1 H2. destruct (db w) as [st|] eqn:Hdb.
  - rewrite !(extract_text_run _ file w st Hdb). cbn [PdfReader docx].
    rewrite H1, H2. by rewrite !omap_app.
  - by rewrite !extract_text_no_db.
Qed.

Lemma pdf_failing_page_skipped_witness :
  extract_text {| PdfReader := Some three_page_reader; docx := None |}
    (upload "cv.pdf" hello_world) (sample_world (Some empty_store))
  = extract_text {| PdfReader := Some two_page_reader; docx := None |}
      (upload "cv.pdf" hello_world) (sample_world (Some empty_store)).
Proof.
  apply (pdf_failing_page_skipped three_page_reader two_page_reader None
           (upload "cv.pdf" hello_world) (sample_world (Some empty_store))
           [Some (pystr " first ")] [Some (pystr "last ")]).
  - reflexivity.
  - reflexivity.
Defined.

(** X11. The text got from a PDF or a DOCX upload is stripped: stripping
    it again changes nothing. *)
Theorem parsed_text_is_stripped (parsers : Parsers) (file : UploadFile) (w w' : World)
    (st : Store) (response : ExtractResponse) :
  db w = Some st ->
  extension_of (filename file) ∈ [pystr "pdf"; pystr "docx"; pystr "doc"] ->
  extract_text parsers file w = (Ok response, w') ->
  strip (text response) = text response.
Proof.
  intros Hdb Hext. rewrite (extract_text_run parsers file w st Hdb).
  destruct (bool_decide (extension_of (filename file) = pystr "pdf")) eqn:Hpdf.
  - destruct (PdfReader parsers) as [reader|]; [|by intros Hrun; injection Hrun as Hr _].
    destruct (reader (file_bytes file)); [by intros Hrun; injection Hrun as Hr _|].
    intros Hrun. apply (f_equal fst) in Hrun. cbn [fst] in Hrun.
    injection Hrun as <-. apply strip_idemp.
  - apply bool_decide_eq_false_1 in Hpdf.
    assert (Hd : bool_decide (extension_of (filename file) = pystr "docx")
                 || bool_decide (extension_of (filename file) = pystr "doc") = true).
    { apply orb_true_iff. rewrite !bool_decide_eq_true.
      apply elem_of_cons in Hext as [?|Hext]; [done|].
      apply elem_of_cons in Hext as [?|Hext]; [by left|].
      apply list_elem_of_singleton in Hext. by right. }
    rewrite Hd.
    destruct (docx parsers) as [document|]; [|by intros Hrun; injection Hrun as Hr _].
    destruct (document _ (file_bytes file)); [by intros Hrun; injection Hrun as Hr _|].
    intros Hrun. apply (f_equal fst) in Hrun. cbn [fst] in Hrun.
    injection Hrun as <-. apply strip_idemp.
Qed.

Lemma parsed_text_is_stripped_witness :
  strip (text {| text := pystr "Ten years of gardening." |})
  = text {| text := pystr "Ten years of gardening." |}.
Proof.
  apply (parsed_text_is_stripped one_paragraph_parsers (upload "cv.docx" hello_world)
           (sample_world (Some empty_store))
           (world_after_upload (sample_world (Some empty_store)) (encode_utf8 hello_world))
           empty_store).
  - reflexivity.
  - apply (bool_decide_eq_true_1 _). by vm_compute.
  - by vm_compute.
Defined.

(** X12. The extension [doc] is handled like [docx].  An upload under
    either extension is written to a temporary file and given to the
    DOCX parser, whose message may name that file.  So two uploads of
    the same bytes, one under each extension, get the same answer
    whenever the parser gives the same outcome on their two files, as it
    does from the same state, where the same name is drawn. *)
Theorem doc_handled_as_docx (parsers : Parsers) (file1 file2 : UploadFile) (w1 w2 : World) :
  extension_of (filename file1) = pystr "doc" ->
  extension_of (filename file2) = pystr "docx" ->
  file_bytes file1 = file_bytes file2 ->
  (is_Some (db w1) <-> is_Some (db w2)) ->
  (forall document, docx parsers = Some document ->
     document (next_tmp_name w1) (file_bytes file1)
     = document (next_tmp_name w2) (file_bytes file2)) ->
  fst (extract_text parsers file1 w1) = fst (extract_text parsers file2 w2).
Proof.
  intros H1 H2 Hb Hdb Hsame.
  destruct (db w1) as [st1|] eqn:Hdb1, (db w2) as [st2|] eqn:Hdb2.
  - rewrite (extract_text_run parsers file1 w1 st1 Hdb1).
    rewrite (extract_text_run parsers file2 w2 st2 Hdb2).
    rewrite H1, H2. cbn [bool_decide orb fst].
    change (bool_decide (pystr "doc" = pystr "pdf")) with false.
    change (bool_decide (pystr "docx" = pystr "pdf")) with false.
    change (bool_decide (pystr "doc" = pystr "docx")) with false.
    change (bool_decide (pystr "docx" = pystr "docx")) with true.
    change (bool_decide (pystr "doc" = pystr "doc")) with true.
    cbn [orb]. destruct (docx parsers) as [document|]; [|done].
    cbn [fst]. by rewrite (Hsame document eq_refl).
  - destruct (proj1 Hdb) as [? ?]; [by eexists|done].
  - destruct (proj2 Hdb) as [? ?]; [by eexists|done].
  - by rewrite !extract_text_no_db.
Qed.

(** From the same state, a non-ZIP upload gets the same error under both
    extensions; the error names the temporary file. *)
Lemma doc_handled_as_docx_witness :
  fst (extract_text path_naming_parsers (upload "cv.doc" hello_world)
         (sample_world (Some empty_store)))
  = fst (extract_text path_naming_parsers (upload "cv.docx" hello_world)
           (sample_world (Some empty_store))).
Proof.
  apply (doc_handled_as_docx path_naming_parsers (upload "cv.doc" hello_world)
           (upload "cv.docx" hello_world) (sample_world (Some empty_store))
           (sample_world (Some empty_store))).
  - by vm_compute.
  - by vm_compute.
  - reflexivity.
  - reflexivity.
  - reflexivity.
Defined.

(** X8. [get_profile] and [test_database] change nothing.  [extract_text]
    never changes the store, nor what [uuid4], the clock and the ObjectId
    generator give next.  When the upload reaches the DOCX parser, it
    draws one name for a temporary file and leaves that file on disk,
    with the bytes of the upload, whatever the parser answers; otherwise
    it changes nothing. *)
Theorem reading_handlers_effects (w : World) (parsers : Parsers) (file : UploadFile)
    (slug : str) (env : Deployment) :
  let w' := snd (extract_text parsers file w) in
  snd (get_profile slug w) = w /\
  snd (test_database env w) = w /\
  db w' = db w /\ w_random w' = w_random w /\
  w_clock w' = w_clock w /\ w_oids w' = w_oids w /\
  (reaches_docx parsers file w ->
   w_tmpnames w' = supply_next (w_tmpnames w) /\
   w_tmpfiles w'
   = w_tmpfiles w ++ [(supply_peek (w_tmpnames w) 0 ++ pystr ".docx", file_bytes file)]) /\
  (~ reaches_docx parsers file w -> w' = w).
Proof.
  assert (Hcases : snd (extract_text parsers file w) = w /\ ~ reaches_docx parsers file w \/
                   snd (extract_text parsers file w) = world_after_upload w (file_bytes file)
                   /\ reaches_docx parsers file w).
  { destruct (db w) as [st|] eqn:Hdb.
    - rewrite (extract_text_run parsers file w st Hdb). unfold reaches_docx. rewrite Hdb.
      destruct (bool_decide (extension_of (filename file) = pystr "pdf")) eqn:Hpdf.
      + left. split; [done|]. intros (_ & Hext & _).
        apply bool_decide_eq_true_1 in Hpdf. rewrite Hpdf in Hext.
        apply elem_of_cons in Hext as [Hext|Hext];
          [vm_compute in Hext; discriminate Hext|].
        apply list_elem_of_singleton in Hext. vm_compute in Hext. discriminate Hext.
      + destruct (bool_decide (extension_of (filename file) = pystr "docx")
                  || bool_decide (extension_of (filename file) = pystr "doc")) eqn:Hd.
        * destruct (docx parsers) as [document|] eqn:Hdoc.
          -- right. split; [done|]. split; [by eexists|]. split; [|by eexists].
             apply orb_true_iff in Hd as [Hd|Hd]; apply bool_decide_eq_true_1 in Hd;
               rewrite Hd; [by left|right; by left].
          -- left. split; [done|]. by intros (_ & _ & [? ?]).
        * left. split; [done|]. intros (_ & Hext & _).
          apply orb_false_iff in Hd as [Hd1 Hd2].
          apply bool_decide_eq_false_1 in Hd1, Hd2.
          apply elem_of_cons in Hext as [Hext|Hext]; [done|].
          by apply list_elem_of_singleton in Hext.
    - left. rewrite extract_text_no_db by done. split; [done|].
      intros ([x Hx] & _). congruence. }
  cbn zeta. split.
  { destruct (db w) as [st|] eqn:Hdb.
    + by rewrite (get_profile_run slug w st Hdb).
    + unfold get_profile. unfold bind at 1. unfold require_db at 1. by rewrite Hdb. }
  split; [done|].
  destruct Hcases as [[-> Hno]|[-> Hyes]]; by repeat split.
Qed.

(** ** The store: identifiers, saved profiles and sessions *)

Lemma hex_value_bound c h : hex_value c = Some h -> h < 16.
Proof.
  unfold hex_value, in_range.
  repeat match goal with
         | |- context [(?a <=? ?b) && (?c <=? ?d)] =>
             destruct (N.leb_spec a b); destruct (N.leb_spec c d); cbn [andb]
         end; intros [= <-]; lia.
Qed.

Lemma byte_of_hex_is_Some hi lo :
  is_Some (byte_of_hex hi lo) <-> is_Some (hex_value hi) /\ is_Some (hex_value lo).
Proof.
  unfold byte_of_hex. split.
  - destruct (hex_value hi), (hex_value lo); by intros [b Hb].
  - intros [[h Hh] [l Hl]]. rewrite Hh, Hl.
    apply hex_value_bound in Hh, Hl.
    destruct (Byte.of_N (16 * h + l)) as [b|] eqn:Hb; [by eexists|].
    apply Byte.of_N_None_iff in Hb. lia.
Qed.

Lemma hex_not_ascii_space c : is_Some (hex_value c) -> is_ascii_space c = false.
Proof.
  unfold hex_value, is_ascii_space, in_range. intros [h Hh]. revert Hh.
  repeat match goal with
         | |- context [(?a <=? ?b) && (?c <=? ?d)] =>
             destruct (N.leb_spec a b); destruct (N.leb_spec c d); cbn [andb orb]
         end; try done; intros _; destruct (N.eqb_spec c 32); lia.
Qed.

Lemma ascii_space_is_space c : is_ascii_space c = true -> is_space c = true.
Proof.
  unfold is_ascii_space, is_space. intros [H|H]%orb_true_iff.
  - by rewrite H.
  - apply N.eqb_eq in H as ->. reflexivity.
Qed.

(** A text of hexadecimal digits, an even number of them, is read whole. *)
Lemma bytes_fromhex_digits n s :
  length s = (2 * n)%nat ->
  Forall (fun c => is_Some (hex_value c)) s ->
  is_Some (bytes_fromhex s).
Proof.
  revert s. induction n as [|n IH]; intros s Hlen Hhex.
  - destruct s; [by eexists|done].
  - destruct s as [|hi [|lo t]]; simpl in Hlen; try lia.
    apply Forall_cons in Hhex as [Hhi Hhex]. apply Forall_cons in Hhex as [Hlo Hhex].
    cbn [bytes_fromhex]. rewrite (hex_not_ascii_space hi Hhi).
    destruct (proj2 (byte_of_hex_is_Some hi lo) (conj Hhi Hlo)) as [b ->].
    destruct (IH t) as [bs ->]; [lia|done|]. by eexists.
Qed.

(** What [bytes.fromhex] reads has hexadecimal digits and white space only. *)
Lemma bytes_fromhex_chars n s bs :
  (length s <= n)%nat ->
  bytes_fromhex s = Some bs ->
  Forall (fun c => is_Some (hex_value c) \/ is_ascii_space c = true) s.
Proof.
  revert s bs. induction n as [|n IH]; intros s bs Hlen.
  - destruct s; [constructor|simpl in Hlen; lia].
  - destruct s as [|c r]; [constructor|]. cbn [bytes_fromhex]. simpl in Hlen.
    destruct (is_ascii_space c) eqn:Hc.
    + intros Hr. constructor; [by right|]. apply (IH r bs); [lia|done].
    + destruct r as [|lo t]; [done|]. simpl in Hlen.
      destruct (byte_of_hex c lo) as [b|] eqn:Hb; [|done].
      destruct (bytes_fromhex t) as [bs'|] eqn:Ht; [|done]. intros _.
      assert (Hd : is_Some (byte_of_hex c lo)) by (by eexists).
      apply byte_of_hex_is_Some in Hd as [Hhi Hlo].
      constructor; [by left|]. constructor; [by left|]. apply (IH t bs'); [lia|done].
Qed.

(** [ObjectId(s)] accepts the texts of 24 hexadecimal digits. *)
Lemma ObjectId_of_str_valid s : valid_object_id s -> is_Some (ObjectId_of_str s).
Proof.
  intros [Hlen Hhex]. unfold ObjectId_of_str. rewrite bool_decide_eq_true_2 by done.
  by apply (bytes_fromhex_digits 12).
Qed.

(** What [ObjectId(s)] accepts has 24 characters, hexadecimal digits and
    white space only. *)
Lemma ObjectId_of_str_Some s oid :
  ObjectId_of_str s = Some oid ->
  length s = 24%nat /\
  Forall (fun c => is_Some (hex_value c) \/ is_ascii_space c = true) s.
Proof.
  unfold ObjectId_of_str. destruct (bool_decide (length s = 24%nat)) eqn:Hlen; [|done].
  apply bool_decide_eq_true_1 in Hlen. intros Hs. split; [done|].
  by apply (bytes_fromhex_chars 24 s oid); [lia|].
Qed.

(** X13. With the database configured, [save_profile] succeeds when the
    [user_id] is a text of 24 hexadecimal digits, whether or not a user
    has this identifier.  When the [user_id] has another length, or holds
    a character that is neither a hexadecimal digit nor white space, it
    raises [HTTPException] 400 and nothing is drawn, stored or changed. *)
Theorem save_profile_checks_user_id (payload : SaveProfileRequest) (w : World) (st : Store) :
  db w = Some st ->
  (valid_object_id (sp_user_id payload) ->
   exists resp w', save_profile payload w = (Ok resp, w')) /\
  (length (sp_user_id payload) ≠ 24%nat \/
   Exists (fun c => hex_value c = None /\ is_space c = false) (sp_user_id payload) ->
   save_profile payload w = (HTTPException 400 (pystr "Invalid user_id"), w)).
Proof.
  intros Hdb. split.
  - intros Hv. apply ObjectId_of_str_valid in Hv as [oid Hoid].
    eexists _, _. by apply (save_profile_run payload w st oid).
  - intros Hbad. destruct (ObjectId_of_str (sp_user_id payload)) as [oid|] eqn:Hoid.
    + exfalso. destruct (ObjectId_of_str_Some _ _ Hoid) as [Hlen Hchars].
      destruct Hbad as [Hbad|Hbad]; [done|].
      apply Exists_exists in Hbad as (c & Hc & Hnone & Hsp).
      rewrite Forall_forall in Hchars. destruct (Hchars c Hc) as [[h Hh]|Hws].
      * congruence.
      * apply ascii_space_is_space in Hws. congruence.
    + unfold save_profile. unfold bind at 1. unfold require_db. by rewrite Hdb, Hoid.
Qed.

Lemma save_profile_checks_user_id_witness :
  (valid_object_id (sp_user_id (sample_request "New profile")) ->
   exists resp w', save_profile (sample_request "New profile")
                                (sample_world (Some empty_store)) = (Ok resp, w')) /\
  (length (sp_user_id (sample_request "New profile")) ≠ 24%nat \/
   Exists (fun c => hex_value c = None /\ is_space c = false)
          (sp_user_id (sample_request "New profile")) ->
   save_profile (sample_request "New profile") (sample_world (Some empty_store))
   = (HTTPException 400 (pystr "Invalid user_id"), sample_world (Some empty_store))).
Proof.
  apply (save_profile_checks_user_id (sample_request "New profile")
           (sample_world (Some empty_store)) empty_store).
  reflexivity.
Defined.

Lemma find_app_found {A} (f : A -> bool) (l l' : list A) (x : A) :
  List.find f l = Some x -> List.find f (l ++ l') = Some x.
Proof.
  induction l as [|a l IH]; [done|]. simpl. by destruct (f a).
Qed.

Lemma find_app_other {A} (f : A -> bool) (l : list A) (y : A) :
  f y = false -> List.find f (l ++ [y]) = List.find f l.
Proof.
  intros Hy. induction l as [|a l IH]; simpl; [by rewrite Hy|]. by destruct (f a).
Qed.

(** X14. A [save_profile] that succeeds, whatever [user_id] it accepted,
    changes no user and no session, and no answer of [get_profile] that
    was a profile: a slug that was served before the save is served the
    same document after it, and a slug other than the new one that was
    unknown stays unknown. *)
Theorem save_profile_keeps_earlier_profiles (payload : SaveProfileRequest) (w w' : World)
    (st : Store) (resp : SaveProfileResponse) :
  db w = Some st ->
  save_profile payload w = (Ok resp, w') ->
  exists st',
    db w' = Some st' /\
    users st' = users st /\ sessions st' = sessions st /\
    (forall slug view, fst (get_profile slug w) = Ok view ->
                       fst (get_profile slug w') = Ok view) /\
    (forall slug, slug ≠ share_slug resp ->
                  fst (get_profile slug w') = fst (get_profile slug w)).
Proof.
  intros Hdb Hrun.
  destruct (save_profile_ok payload w resp w' Hrun) as (st0 & user_oid & Hdb0 & _ & -> & ->).
  rewrite Hdb in Hdb0. injection Hdb0 as <-.
  eexists. split; [reflexivity|]. split; [done|]. split; [done|].
  assert (Hdb' : db (world_after_save w st (new_profile payload user_oid w))
                 = Some {| users := users st; sessions := sessions st;
                           profiles := profiles st ++ [new_profile payload user_oid w] |})
    by reflexivity.
  split.
  - intros slug view. rewrite (get_profile_run slug w st Hdb), (get_profile_run slug _ _ Hdb').
    cbn [fst profiles].
    destruct (List.find (has_slug slug) (profiles st)) as [doc|] eqn:Hfind; [|done].
    by rewrite (find_app_found _ _ _ _ Hfind).
  - intros slug Hne. rewrite (get_profile_run slug w st Hdb), (get_profile_run slug _ _ Hdb').
    cbn [fst profiles share_slug] in *. rewrite find_app_other; [done|].
    unfold has_slug. cbn [profile_share_slug new_profile].
    apply bool_decide_eq_false_2. congruence.
Qed.

(** A save for a [user_id] with white space, into a store that holds a
    profile with another [_id]. *)
Lemma save_profile_keeps_earlier_profiles_witness :
  exists st',
    db (world_after_save (sample_world (Some store_with_earlier_profile))
          store_with_earlier_profile
          (new_profile spaced_request spaced_user_oid
             (sample_world (Some store_with_earlier_profile)))) = Some st' /\
    users st' = users store_with_earlier_profile /\
    sessions st' = sessions store_with_earlier_profile /\
    (forall slug view,
        fst (get_profile slug (sample_world (Some store_with_earlier_profile))) = Ok view ->
        fst (get_profile slug
               (world_after_save (sample_world (Some store_with_earlier_profile))
                  store_with_earlier_profile
                  (new_profile spaced_request spaced_user_oid
                     (sample_world (Some store_with_earlier_profile))))) = Ok view) /\
    (forall slug, slug ≠ pystr "0000000000" ->
        fst (get_profile slug
               (world_after_save (sample_world (Some store_with_earlier_profile))
                  store_with_earlier_profile
                  (new_profile spaced_request spaced_user_oid
                     (sample_world (Some store_with_earlier_profile)))))
        = fst (get_profile slug (sample_world (Some store_with_earlier_profile)))).
Proof.
  apply (save_profile_keeps_earlier_profiles spaced_request
           (sample_world (Some store_with_earlier_profile))
           (world_after_save (sample_world (Some store_with_earlier_profile))
              store_with_earlier_profile
              (new_profile spaced_request spaced_user_oid
                 (sample_world (Some store_with_earlier_profile))))
           store_with_earlier_profile
           {| profile_id := pystr "000000000000000000000001";
              share_slug := pystr "0000000000" |}).
  - reflexivity.
  - by vm_compute.
Defined.

(** X15. With the database configured, [get_profile] answers a slug that
    some profile has with the earliest such profile: its stored fields,
    with [_id] as its 24-digit string and [user_id] as the hexadecimal
    text of its bytes.  Both identifiers can be read back from these
    texts, by [ObjectId] when the text has 24 digits. *)
Theorem get_profile_earliest (w : World) (st : Store) (before after : list ProfileDoc)
    (doc : ProfileDoc) :
  db w = Some st ->
  profiles st = before ++ doc :: after ->
  Forall (fun p => profile_share_slug p ≠ profile_share_slug doc) before ->
  exists view,
    get_profile (profile_share_slug doc) w = (Ok view, w) /\
    pv_id view = oid_str (profile_oid doc) /\
    pv_user_id view = oid_str (profile_user_id doc) /\
    ObjectId_of_str (pv_id view) = Some (vec_to_list (profile_oid doc)) /\
    bytes_fromhex (pv_user_id view) = Some (profile_user_id doc) /\
    (length (profile_user_id doc) = 12%nat ->
     ObjectId_of_str (pv_user_id view) = Some (profile_user_id doc)) /\
    pv_content view = profile_content doc /\
    pv_loom_url view = profile_loom_url doc /\
    pv_photo_url view = profile_photo_url doc /\
    pv_share_slug view = profile_share_slug doc /\
    pv_created_at view = profile_created_at doc /\
    pv_updated_at view = profile_updated_at doc.
Proof.
  intros Hdb Hst Hbefore. exists (view_of doc).
  rewrite (get_profile_run _ w st Hdb), Hst.
  assert (Hfind : List.find (has_slug (profile_share_slug doc)) (before ++ doc :: after)
                  = Some doc).
  { clear Hst. induction Hbefore as [|p l Hp _ IH]; cbn [app List.find].
    - unfold has_slug at 1. by rewrite bool_decide_eq_true_2.
    - unfold has_slug at 1. by rewrite bool_decide_eq_false_2. }
  rewrite Hfind. cbn [view_of pv_id pv_user_id pv_content pv_loom_url pv_photo_url
                        pv_share_slug pv_created_at pv_updated_at].
  rewrite ObjectId_of_str_oid_str. unfold oid_str at 3. rewrite bytes_fromhex_hexlify.
  repeat split. intros Hlen. unfold ObjectId_of_str, oid_str.
  rewrite bool_decide_eq_true_2 by (rewrite hexlify_length; lia).
  apply bytes_fromhex_hexlify.
Qed.

Lemma get_profile_earliest_witness :
  exists view,
    get_profile (pystr "0000000000") (sample_world (Some store_with_earlier_profile))
    = (Ok view, sample_world (Some store_with_earlier_profile)) /\
    pv_id view = oid_str zero_oid /\
    pv_user_id view = oid_str zero_oid /\
    ObjectId_of_str (pv_id view) = Some (vec_to_list zero_oid) /\
    bytes_fromhex (pv_user_id view) = Some (vec_to_list zero_oid) /\
    (length (vec_to_list zero_oid) = 12%nat ->
     ObjectId_of_str (pv_user_id view) = Some (vec_to_list zero_oid)) /\
    pv_content view = sample_content "Earlier profile" /\
    pv_loom_url view = None /\
    pv_photo_url view = None /\
    pv_share_slug view = pystr "0000000000" /\
    pv_created_at view = 0 /\
    pv_updated_at view = 0.
Proof.
  apply (get_profile_earliest (sample_world (Some store_with_earlier_profile))
           store_with_earlier_profile [] [] earlier_profile).
  - reflexivity.
  - reflexivity.
  - constructor.
Defined.

(** ** Signing in: users and sessions *)

(** What [signin] stores for an email that is not registered yet. *)
Lemma signin_new_run (payload : SignInRequest) (w : World) (st : Store) :
  db w = Some st ->
  List.find (has_email (email payload)) (users st) = None ->
  exists w',
    signin payload w
    = (Ok {| user_id := oid_str (supply_peek (w_oids w) 0);
             token := uuid_str (uuid4_of (supply_peek (w_random w) 0)) |}, w') /\
    db w' = Some
      {| users := users st ++
           [{| user_oid := supply_peek (w_oids w) 0;
               user_email := email payload;
               user_name := or_else (name payload)
                                    (Some (hd [] (split_on 0x40 (email payload))));
               user_created_at := supply_peek (w_clock w) 0;
               user_updated_at := supply_peek (w_clock w) 1 |}];
         sessions := sessions st ++
           [{| session_oid := supply_peek (w_oids w) 1;
               session_user_id := supply_peek (w_oids w) 0;
               session_token := uuid_str (uuid4_of (supply_peek (w_random w) 0));
               session_created_at := supply_peek (w_clock w) 2 |}];
         profiles := profiles st |}.
Proof.
  intros Hdb Hfind. unfold signin.
  unfold bind at 1. unfold require_db at 1. rewrite Hdb.
  unfold bind at 1. unfold find_one_user, bind at 1, require_db at 1. rewrite Hdb.
  unfold ret at 1. fold (has_email (email payload)). rewrite Hfind.
  unfold ObjectId_or_raise.
  unfold bind, ret, now, insert_one_user, uuid4, insert_one_session, new_object_id,
    require_db, set_store, bind, ret. cbn. rewrite Hdb. cbn.
  repeat (rewrite ?ObjectId_of_str_oid_str; cbn).
  eexists. split; [reflexivity|]. cbn. unfold supply_peek. cbn.
  repeat f_equal; lia.
Qed.

(** What [signin] stores for an email that is registered. *)
Lemma signin_known_run (payload : SignInRequest) (w : World) (st : Store) (u : UserDoc) :
  db w = Some st ->
  List.find (has_email (email payload)) (users st) = Some u ->
  exists w',
    signin payload w
    = (Ok {| user_id := oid_str (user_oid u);
             token := uuid_str (uuid4_of (supply_peek (w_random w) 0)) |}, w') /\
    db w' = Some
      {| users := update_first_user (user_oid u) (or_else (name payload) (user_name u))
                    (supply_peek (w_clock w) 0) (users st);
         sessions := sessions st ++
           [{| session_oid := supply_peek (w_oids w) 0;
               session_user_id := user_oid u;
               session_token := uuid_str (uuid4_of (supply_peek (w_random w) 0));
               session_created_at := supply_peek (w_clock w) 1 |}];
         profiles := profiles st |}.
Proof.
  intros Hdb Hfind. unfold signin.
  unfold bind at 1. unfold require_db at 1. rewrite Hdb.
  unfold bind at 1. unfold find_one_user, bind at 1, require_db at 1. rewrite Hdb.
  unfold ret at 1. fold (has_email (email payload)). rewrite Hfind.
  unfold ObjectId_or_raise. rewrite ObjectId_of_str_oid_str.
  unfold bind, ret, now, update_one_user, uuid4, insert_one_session, new_object_id,
    require_db, set_store, bind, ret. cbn. rewrite Hdb. cbn.
  repeat (rewrite ?ObjectId_of_str_oid_str; cbn).
  eexists. split; [reflexivity|]. cbn. unfold supply_peek. cbn.
  repeat f_equal; lia.
Qed.

(** X16. With the database configured, every [signin] succeeds and adds
    exactly one session, which holds the returned token and refers to the
    returned user; the profiles are left as they are. *)
Theorem signin_adds_one_session (payload : SignInRequest) (w : World) (st : Store) :
  db w = Some st ->
  exists r w' st' s,
    signin payload w = (Ok r, w') /\ db w' = Some st' /\
    sessions st' = sessions st ++ [s] /\
    session_token s = token r /\
    oid_str (session_user_id s) = user_id r /\
    profiles st' = profiles st.
Proof.
  intros Hdb.
  destruct (List.find (has_email (email payload)) (users st)) as [u|] eqn:Hfind.
  - destruct (signin_known_run payload w st u Hdb Hfind) as (w' & Hrun & Hdb').
    eexists _, w', _, _. split; [exact Hrun|]. split; [exact Hdb'|]. by repeat split.
  - destruct (signin_new_run payload w st Hdb Hfind) as (w' & Hrun & Hdb').
    eexists _, w', _, _. split; [exact Hrun|]. split; [exact Hdb'|]. by repeat split.
Qed.

Lemma signin_adds_one_session_witness :
  exists r w' st' s,
    signin {| email := pystr "ann@example.org"; name := None |}
           (sample_world (Some empty_store)) = (Ok r, w') /\
    db w' = Some st' /\
    sessions st' = sessions empty_store ++ [s] /\
    session_token s = token r /\
    oid_str (session_user_id s) = user_id r /\
    profiles st' = profiles empty_store.
Proof.
  apply (signin_adds_one_session {| email := pystr "ann@example.org"; name := None |}
           (sample_world (Some empty_store)) empty_store).
  reflexivity.
Defined.

(** The first piece of [s.split(sep)] is the part of [s] before the
    first [sep], the whole of [s] when it has none. *)
Lemma split_on_hd sep s :
  sep ∉ hd [] (split_on sep s) /\
  (s = hd [] (split_on sep s) \/
   exists rest, s = hd [] (split_on sep s) ++ sep :: rest).
Proof.
  induction s as [|c s [IHn IHs]]; cbn [split_on].
  - split; [apply not_elem_of_nil|by left].
  - destruct (N.eqb_spec c sep) as [->|Hne]; cbn [hd].
    + split; [apply not_elem_of_nil|]. right. by exists s.
    + destruct (split_on sep s) as [|p ps]; cbn [hd] in *.
      * split; [by apply not_elem_of_cons|].
        destruct IHs as [->|[rest ->]]; [by left|]. right. by exists rest.
      * split; [by apply not_elem_of_cons|].
        destruct IHs as [IHs|[rest IHs]]; [left|right; exists rest]; by rewrite IHs at 1.
Qed.

Lemma find_all_false {A} (f : A -> bool) (l : list A) :
  (forall x, x ∈ l -> f x = false) -> List.find f l = None.
Proof.
  induction l as [|a l IH]; intros H; [done|]. simpl.
  rewrite (H a) by left. apply IH. intros x Hx. apply H. by right.
Qed.

(** X17. The first [signin] with an email, whatever text the email is,
    registers one user under this email, whose [_id] is the returned
    [user_id].  Its name is the name given, or without a name (or with
    an empty one) the part of the email before the first [@], which is
    the whole email when it has no [@]. *)
Theorem signin_registers_new_user (payload : SignInRequest) (w : World) (st : Store) :
  db w = Some st ->
  (forall u, u ∈ users st -> user_email u ≠ email payload) ->
  exists r w' st' u local,
    signin payload w = (Ok r, w') /\ db w' = Some st' /\
    users st' = users st ++ [u] /\
    user_email u = email payload /\
    oid_str (user_oid u) = user_id r /\
    0x40 ∉ local /\
    (email payload = local \/ exists domain, email payload = local ++ 0x40 :: domain) /\
    user_name u = match name payload with
                  | Some (c :: n) => Some (c :: n)
                  | _ => Some local
                  end.
Proof.
  intros Hdb Hnew.
  assert (Hfind : List.find (has_email (email payload)) (users st) = None).
  { apply find_all_false. intros u Hu. unfold has_email.
    apply bool_decide_eq_false_2. by apply Hnew. }
  destruct (signin_new_run payload w st Hdb Hfind) as (w' & Hrun & Hdb').
  destruct (split_on_hd 0x40 (email payload)) as [Hlocal Hsplit].
  eexists _, w', _, _, (hd [] (split_on 0x40 (email payload))).
  split; [exact Hrun|]. split; [exact Hdb'|].
  cbn. repeat split; [done|done|].
  by destruct (name payload) as [[|c n]|].
Qed.

(** A first sign-in with an email that has no [@]. *)
Lemma signin_registers_new_user_witness :
  exists r w' st' u local,
    signin {| email := pystr "no-at-sign"; name := None |}
           (sample_world (Some store_with_ann)) = (Ok r, w') /\
    db w' = Some st' /\
    users st' = users store_with_ann ++ [u] /\
    user_email u = pystr "no-at-sign" /\
    oid_str (user_oid u) = user_id r /\
    0x40 ∉ local /\
    (pystr "no-at-sign" = local \/ exists domain, pystr "no-at-sign" = local ++ 0x40 :: domain) /\
    user_name u = Some local.
Proof.
  apply (signin_registers_new_user {| email := pystr "no-at-sign"; name := None |}
           (sample_world (Some store_with_ann)) store_with_ann).
  - reflexivity.
  - intros u Hu. apply list_elem_of_singleton in Hu as ->. by vm_compute.
Defined.

Lemma update_first_user_keys oid name t l :
  user_key <$> update_first_user oid name t l = user_key <$> l.
Proof.
  induction l as [|u l IH]; [done|]. cbn [update_first_user].
  destruct (bool_decide (vec_to_list (user_oid u) = oid)); cbn [fmap list_fmap]; [done|].
  f_equal. apply IH.
Qed.

Lemma update_first_user_at name t l1 (u : UserDoc) l2 :
  Forall (fun v => user_oid v ≠ user_oid u) l1 ->
  update_first_user (user_oid u) name t (l1 ++ u :: l2)
  = l1 ++ {| user_oid := user_oid u; user_email := user_email u; user_name := name;
             user_created_at := user_created_at u; user_updated_at := t |} :: l2.
Proof.
  intros Hl1. induction Hl1 as [|v l Hv _ IH]; cbn [app update_first_user].
  - by rewrite bool_decide_eq_true_2.
  - rewrite bool_decide_eq_false_2; [by rewrite IH|].
    intros Heq. by apply vec_to_list_inj2 in Heq.
Qed.

Lemma find_at {A} (f : A -> bool) (l1 l2 : list A) (x : A) :
  Forall (fun y => f y = false) l1 -> f x = true -> List.find f (l1 ++ x :: l2) = Some x.
Proof.
  intros Hl1 Hx. induction Hl1 as [|y l Hy _ IH]; cbn [app List.find].
  - by rewrite Hx.
  - by rewrite Hy.
Qed.

(** X18. [signin] never removes a user and never changes the [_id], the
    email or the creation time of one: the users it finds stay in place
    and at most one is added.  An email that was registered keeps its
    [user_id]. *)
Theorem signin_keeps_registered_users (payload : SignInRequest) (w : World) (st : Store) :
  db w = Some st ->
  exists r w' st',
    signin payload w = (Ok r, w') /\ db w' = Some st' /\
    (exists added, user_key <$> users st' = (user_key <$> users st) ++ added /\
                   (length added <= 1)%nat) /\
    (forall e u, List.find (has_email e) (users st) = Some u ->
                 user_oid <$> List.find (has_email e) (users st') = Some (user_oid u)).
Proof.
  intros Hdb.
  destruct (List.find (has_email (email payload)) (users st)) as [u|] eqn:Hfind.
  - destruct (signin_known_run payload w st u Hdb Hfind) as (w' & Hrun & Hdb').
    eexists _, w', _. split; [exact Hrun|]. split; [exact Hdb'|]. cbn [users]. split.
    + exists []. rewrite update_first_user_keys, app_nil_r. split; [done|simpl; lia].
    + intros e v Hv. by rewrite find_update_first_user, Hv.
  - destruct (signin_new_run payload w st Hdb Hfind) as (w' & Hrun & Hdb').
    eexists _, w', _. split; [exact Hrun|]. split; [exact Hdb'|]. cbn [users]. split.
    + eexists [_]. rewrite fmap_app. split; [done|simpl; lia].
    + intros e v Hv. by rewrite (find_app_found _ _ _ _ Hv).
Qed.

Lemma signin_keeps_registered_users_witness :
  exists r w' st',
    signin {| email := pystr "ann@example.org"; name := None |}
           (sample_world (Some empty_store)) = (Ok r, w') /\
    db w' = Some st' /\
    (exists added, user_key <$> users st' = (user_key <$> users empty_store) ++ added /\
                   (length added <= 1)%nat) /\
    (forall e u, List.find (has_email e) (users empty_store) = Some u ->
                 user_oid <$> List.find (has_email e) (users st') = Some (user_oid u)).
Proof.
  apply (signin_keeps_registered_users {| email := pystr "ann@example.org"; name := None |}
           (sample_world (Some empty_store)) empty_store).
  reflexivity.
Defined.

(** X19. A [signin] with a registered email rewrites the name and the
    update time of that user only: the name given, or the stored name
    when none (or an empty one) is given.  The user's [_id] is assumed
    not to be the [_id] of a user stored before it. *)
Theorem signin_updates_known_user (payload : SignInRequest) (w : World) (st : Store)
    (before after : list UserDoc) (u : UserDoc) :
  db w = Some st ->
  users st = before ++ u :: after ->
  user_email u = email payload ->
  Forall (fun v => user_email v ≠ email payload /\ user_oid v ≠ user_oid u) before ->
  exists r w' st',
    signin payload w = (Ok r, w') /\ db w' = Some st' /\
    user_id r = oid_str (user_oid u) /\
    users st' = before ++
      {| user_oid := user_oid u;
         user_email := user_email u;
         user_name := match name payload with
                      | Some (c :: n) => Some (c :: n)
                      | _ => user_name u
                      end;
         user_created_at := user_created_at u;
         user_updated_at := supply_peek (w_clock w) 0 |} :: after.
Proof.
  intros Hdb Husers Hemail Hbefore.
  assert (Hfind : List.find (has_email (email payload)) (users st) = Some u).
  { rewrite Husers. apply find_at.
    - eapply Forall_impl; [exact Hbefore|]. intros v [Hv _]. unfold has_email.
      by apply bool_decide_eq_false_2.
    - unfold has_email. by apply bool_decide_eq_true_2. }
  destruct (signin_known_run payload w st u Hdb Hfind) as (w' & Hrun & Hdb').
  eexists _, w', _. split; [exact Hrun|]. split; [exact Hdb'|]. split; [done|].
  cbn [users]. rewrite Husers, update_first_user_at.
  - by destruct (name payload) as [[|c n]|].
  - eapply Forall_impl; [exact Hbefore|]. by intros v [_ Hv].
Qed.

Lemma signin_updates_known_user_witness :
  exists r w' st',
    signin {| email := pystr "ann@example.org"; name := Some (pystr "Ann Lee") |}
           (sample_world (Some store_with_ann)) = (Ok r, w') /\
    db w' = Some st' /\
    user_id r = oid_str (user_oid ann) /\
    users st' = [] ++
      {| user_oid := user_oid ann;
         user_email := user_email ann;
         user_name := Some (pystr "Ann Lee");
         user_created_at := user_created_at ann;
         user_updated_at := supply_peek (w_clock (sample_world (Some store_with_ann))) 0 |}
      :: [].
Proof.
  apply (signin_updates_known_user
           {| email := pystr "ann@example.org"; name := Some (pystr "Ann Lee") |}
           (sample_world (Some store_with_ann)) store_with_ann [] [] ann).
  - reflexivity.
  - reflexivity.
  - reflexivity.
  - constructor.
Defined.

(** X20. The [user_id] that [signin] returns is accepted by
    [save_profile]: saving a profile under it right after succeeds, and
    the profile stored refers to the user the email is registered to. *)
Theorem signin_then_save_profile (sign : SignInRequest) (w : World) (st : Store)
    (c : GeneratedContent) (loom photo : option str) :
  db w = Some st ->
  exists r w1 st1 resp w2 st2 doc u,
    signin sign w = (Ok r, w1) /\ db w1 = Some st1 /\
    save_profile {| sp_user_id := user_id r; content := c;
                    loom_url := loom; photo_url := photo |} w1 = (Ok resp, w2) /\
    db w2 = Some st2 /\
    profiles st2 = profiles st1 ++ [doc] /\
    profile_content doc = c /\
    List.find (has_email (email sign)) (users st2) = Some u /\
    profile_user_id doc = user_oid u.
Proof.
  intros Hdb.
  destruct (signin_run sign w st Hdb) as (w1 & st1 & uid & Hrun & Hdb1 & Hfind & _ & _).
  destruct (List.find (has_email (email sign)) (users st1)) as [u|] eqn:Hu; [|done].
  injection Hfind as <-.
  pose (save := {| sp_user_id := oid_str (user_oid u); content := c;
                   loom_url := loom; photo_url := photo |}).
  pose proof (save_profile_run save w1 st1 (user_oid u) Hdb1
                (ObjectId_of_str_oid_str (user_oid u))) as Hsave.
  eexists _, w1, st1, _, _, _, _, u.
  split; [exact Hrun|]. split; [exact Hdb1|]. split; [exact Hsave|].
  split; [reflexivity|]. cbn. by repeat split.
Qed.

Lemma signin_then_save_profile_witness :
  exists r w1 st1 resp w2 st2 doc u,
    signin {| email := pystr "ann@example.org"; name := None |}
           (sample_world (Some empty_store)) = (Ok r, w1) /\
    db w1 = Some st1 /\
    save_profile {| sp_user_id := user_id r; content := sample_content "New profile";
                    loom_url := None; photo_url := None |} w1 = (Ok resp, w2) /\
    db w2 = Some st2 /\
    profiles st2 = profiles st1 ++ [doc] /\
    profile_content doc = sample_content "New profile" /\
    List.find (has_email (pystr "ann@example.org")) (users st2) = Some u /\
    profile_user_id doc = user_oid u.
Proof.
  apply (signin_then_save_profile {| email := pystr "ann@example.org"; name := None |}
           (sample_world (Some empty_store)) empty_store (sample_content "New profile")
           None None).
  reflexivity.
Defined.

(** ** The shape of a UUID *)

Lemma of_hex_uint_acc_lower d acc :
  N.pos acc * 16 ^ N.of_nat (Hexadecimal.nb_digits d) <= N.pos (Pos.of_hex_uint_acc d acc).
Proof.
  revert acc. induction d as [|d IH|d IH|d IH|d IH|d IH|d IH|d IH|d IH|d IH|d IH|d IH|d IH|d IH|d IH|d IH|d IH];
    intros acc; cbn [Hexadecimal.nb_digits Pos.of_hex_uint_acc];
    [rewrite N.mul_1_r; reflexivity|..];
    (etransitivity; [|apply IH]);
    rewrite Nat2N.inj_succ, N.pow_succ_r';
    set (p := 16 ^ N.of_nat (Hexadecimal.nb_digits d)); nia.
Qed.

Lemma nzhead_not_D0 u v : Hexadecimal.nzhead u <> Hexadecimal.D0 v.
Proof. induction u; cbn [Hexadecimal.nzhead]; congruence. Qed.

Lemma to_hex_uint_digits (n : N) (k : nat) :
  n < 16 ^ N.of_nat k -> (Hexadecimal.nb_digits (N.to_hex_uint n) <= Nat.max 1 k)%nat.
Proof.
  intros Hn.
  pose proof (HexadecimalN.Unsigned.to_of (N.to_hex_uint n)) as Hnorm.
  pose proof (HexadecimalN.Unsigned.of_to n) as Hval.
  rewrite Hval in Hnorm. clear Hval.
  pose proof (HexadecimalN.Unsigned.of_to n) as Hval.
  set (d := N.to_hex_uint n) in *. clearbody d. subst n.
  assert (Hpow : forall l acc, N.pos (Pos.of_hex_uint_acc l acc) < 16 ^ N.of_nat k ->
                               (S (Hexadecimal.nb_digits l) <= Nat.max 1 k)%nat).
  { intros l acc Hlt. pose proof (of_hex_uint_acc_lower l acc) as Hlow.
    assert (16 ^ N.of_nat (Hexadecimal.nb_digits l) < 16 ^ N.of_nat k) as Hp.
    { eapply N.le_lt_trans; [|exact Hlt]. etransitivity; [|exact Hlow].
      set (p := 16 ^ N.of_nat (Hexadecimal.nb_digits l)). nia. }
    apply N.pow_lt_mono_r_iff in Hp; lia. }
  destruct d; cbn [Hexadecimal.nb_digits]; try (by eapply Hpow; exact Hn); [lia|].
  unfold Hexadecimal.unorm in Hnorm. cbn [Hexadecimal.nzhead] in Hnorm.
  destruct (Hexadecimal.nzhead d) eqn:Hnz;
    try (by exfalso; eapply nzhead_not_D0; rewrite Hnz; symmetry; exact Hnorm).
  injection Hnorm as ->. cbn. lia.
Qed.

Lemma hex_chars_length u : length (hex_chars u) = Hexadecimal.nb_digits u.
Proof. induction u; cbn [hex_chars Hexadecimal.nb_digits length]; congruence. Qed.

Lemma format_0x_exact (width : nat) (n : N) :
  (1 <= width)%nat -> n < 16 ^ N.of_nat width -> length (format_0x width n) = width.
Proof.
  intros Hw Hn. unfold format_0x, format_x.
  rewrite length_app, length_replicate, hex_chars_length.
  pose proof (to_hex_uint_digits n width Hn). lia.
Qed.

Lemma below_bits a n : a < 2 ^ n <-> forall m, n <= m -> N.testbit a m = false.
Proof.
  split.
  - intros Ha m Hm. rewrite <- (N.mod_small a (2 ^ n)) by done.
    by apply N.mod_pow2_bits_high.
  - intros Hbits. assert (a mod 2 ^ n = a) as <-.
    { apply N.bits_inj. intros m. destruct (N.lt_ge_cases m n) as [Hm|Hm].
      - by apply N.mod_pow2_bits_low.
      - rewrite (Hbits m Hm). by apply N.mod_pow2_bits_high. }
    apply N.mod_lt, N.pow_nonzero. lia.
Qed.

Lemma lor_below a b n : a < 2 ^ n -> b < 2 ^ n -> N.lor a b < 2 ^ n.
Proof.
  rewrite !below_bits. intros Ha Hb m Hm. by rewrite N.lor_spec, Ha, Hb.
Qed.

Lemma ldiff_below a b n : a < 2 ^ n -> N.ldiff a b < 2 ^ n.
Proof.
  rewrite !below_bits. intros Ha m Hm. by rewrite N.ldiff_spec, Ha.
Qed.

Lemma uuid4_of_below r : uuid4_of r < 2 ^ 128.
Proof.
  unfold uuid4_of. apply lor_below; [|by vm_compute].
  apply ldiff_below, lor_below; [|by vm_compute].
  apply ldiff_below, N.mod_lt. by vm_compute.
Qed.

Lemma uuid_hex_length r : length (uuid_hex (uuid4_of r)) = 32%nat.
Proof.
  unfold uuid_hex. apply format_0x_exact; [lia|].
  change (16 ^ N.of_nat 32) with (2 ^ 128). apply uuid4_of_below.
Qed.

Lemma of_hex_uint_acc_value d acc :
  N.pos (Pos.of_hex_uint_acc d acc)
  = N.pos acc * 16 ^ N.of_nat (Hexadecimal.nb_digits d) + N.of_hex_uint d.
Proof.
  unfold N.of_hex_uint. revert acc.
  induction d as [|d IH|d IH|d IH|d IH|d IH|d IH|d IH|d IH|d IH|d IH|d IH|d IH|d IH|d IH|d IH|d IH];
    intros acc; cbn [Hexadecimal.nb_digits Pos.of_hex_uint_acc Pos.of_hex_uint];
    [rewrite N.mul_1_r, N.add_0_r; reflexivity|..];
    rewrite ?Nat2N.inj_succ, ?N.pow_succ_r', !IH;
    set (p := 16 ^ N.of_nat (Hexadecimal.nb_digits d));
    set (v := Pos.of_hex_uint d); lia.
Qed.

Lemma hex_uint_digits s : Hexadecimal.nb_digits (hex_uint s) = length s.
Proof.
  induction s as [|c s IH]; [done|]. cbn [hex_uint length]. rewrite <- IH.
  destruct (hex_value c) as [[|p]|]; [done| |done].
  do 4 (try destruct p as [p|p|]); done.
Qed.

Lemma below_16_cases h :
  h < 16 -> h ∈ [0; 1; 2; 3; 4; 5; 6; 7; 8; 9; 10; 11; 12; 13; 14; 15].
Proof.
  intros Hh. assert (Hn : (N.to_nat h < 16)%nat) by lia. rewrite <- (N2Nat.id h).
  destruct (N.to_nat h) as [|n]; [by left|].
  do 15 (destruct n as [|n]; [by repeat constructor|]). lia.
Qed.

Lemma int_of_hex_cons c s :
  int_of_hex (c :: s) = digit_value c * 16 ^ N.of_nat (length s) + int_of_hex s.
Proof.
  unfold int_of_hex, digit_value. cbn [hex_uint]. rewrite <- (hex_uint_digits s).
  destruct (hex_value c) as [h|] eqn:Hc; cbn [default]; [|by rewrite N.mul_0_l].
  apply hex_value_bound in Hc.
  pose proof (below_16_cases h Hc) as Hh.
  repeat (apply elem_of_cons in Hh as [->|Hh];
          [first [by rewrite N.mul_0_l
                 |unfold N.of_hex_uint at 1; cbn [Pos.of_hex_uint];
                  by rewrite of_hex_uint_acc_value]|]).
  by apply elem_of_nil in Hh.
Qed.

Lemma int_of_hex_below s : int_of_hex s < 16 ^ N.of_nat (length s).
Proof.
  induction s as [|c s IH]; [by vm_compute|].
  rewrite int_of_hex_cons. cbn [length]. rewrite Nat2N.inj_succ, N.pow_succ_r'.
  assert (digit_value c < 16) as Hc.
  { unfold digit_value. destruct (hex_value c) eqn:E; [by eapply hex_value_bound|done]. }
  set (p := 16 ^ N.of_nat (length s)) in *. nia.
Qed.

Lemma int_of_hex_app s1 s2 :
  int_of_hex (s1 ++ s2) = int_of_hex s1 * 16 ^ N.of_nat (length s2) + int_of_hex s2.
Proof.
  induction s1 as [|c s1 IH]; [by cbn|].
  cbn [app]. rewrite !int_of_hex_cons, IH, length_app, Nat2N.inj_add, N.pow_add_r. lia.
Qed.

(** The digit at position [i] of a hexadecimal text. *)
Lemma int_of_hex_digit s i c :
  s !! i = Some c ->
  digit_value c = (int_of_hex s / 16 ^ N.of_nat (length s - S i)) mod 16.
Proof.
  intros Hi. pose proof (lookup_lt_Some _ _ _ Hi) as Hlen.
  rewrite <- (take_drop_middle s i c Hi) at 1.
  rewrite int_of_hex_app, int_of_hex_cons, length_drop.
  pose proof (int_of_hex_below (drop (S i) s)) as Hlow. rewrite length_drop in Hlow.
  assert (digit_value c < 16) as Hc.
  { unfold digit_value. destruct (hex_value c) eqn:E; [by eapply hex_value_bound|done]. }
  cbn [length]. rewrite length_drop.
  replace (length s - i)%nat with (S (length s - S i)) by lia.
  rewrite Nat2N.inj_succ, N.pow_succ_r'.
  set (p := 16 ^ N.of_nat (length s - S i)) in *.
  assert (0 < p) by (apply N.neq_0_lt_0, N.pow_nonzero; lia).
  set (a := int_of_hex (take i s)). set (b := int_of_hex (drop (S i) s)) in *.
  replace (a * (16 * p) + (digit_value c * p + b)) with (b + (a * 16 + digit_value c) * p) by lia.
  rewrite N.div_add by lia. rewrite (N.div_small b p) by done. rewrite N.add_0_l.
  replace (a * 16 + digit_value c) with (digit_value c + a * 16) by lia.
  rewrite N.Div0.mod_add. by rewrite N.mod_small.
Qed.

Lemma lower_hex_of_value c v :
  is_lower_hex c = true -> digit_value c = v -> c = hex_digit v.
Proof.
  unfold is_lower_hex, digit_value, hex_value, hex_digit, in_range.
  repeat match goal with
         | |- context [(?a <=? ?b) && (?c <=? ?d)] =>
             destruct (N.leb_spec a b); destruct (N.leb_spec c d); cbn [andb orb default]
         end; try done; intros _ <-;
    match goal with |- context [?a <? ?b] => destruct (N.ltb_spec a b) end;
    unfold id in *; lia.
Qed.

Lemma uuid4_version_digit r : (uuid4_of r / 16 ^ 19) mod 16 = 4.
Proof.
  change (16 ^ 19) with (2 ^ 76). change 16 with (2 ^ 4).
  rewrite <- N.shiftr_div_pow2, <- N.land_ones.
  apply N.bits_inj. intros i. rewrite N.land_spec, N.shiftr_spec by lia.
  unfold uuid4_of. rewrite N.lor_spec, N.ldiff_spec.
  destruct (N.lt_ge_cases i 4) as [Hi|Hi].
  - rewrite !N.shiftl_spec_high by lia.
    replace (i + 76 - 64) with (i + 12) by lia. replace (i + 76 - 76) with i by lia.
    assert (Hcase : i ∈ [0; 1; 2; 3]).
    { assert (Hn : (N.to_nat i < 4)%nat) by lia. rewrite <- (N2Nat.id i).
      destruct (N.to_nat i) as [|n]; [by left|].
      do 3 (destruct n as [|n]; [by repeat constructor|]). lia. }
    match goal with
    | |- context [N.testbit (N.lor ?a ?b) ?k] => generalize (N.testbit (N.lor a b) k)
    end.
    intros x.
    repeat (apply elem_of_cons in Hcase as [->|Hcase]; [by destruct x|]).
    by apply elem_of_nil in Hcase.
  - rewrite (proj1 (below_bits (N.ones 4) 4)) by (by vm_compute || done).
    rewrite (proj1 (below_bits 4 4)) by (by vm_compute || done).
    apply andb_false_r.
Qed.

Lemma uuid4_variant_digit r : (uuid4_of r / 16 ^ 15) mod 16 ∈ [8; 9; 10; 11].
Proof.
  set (v := (uuid4_of r / 16 ^ 15) mod 16).
  assert (Hlt : v < 16) by (by apply N.mod_lt).
  assert (Hbits : N.testbit v 3 = true /\ N.testbit v 2 = false).
  { unfold v. change (16 ^ 15) with (2 ^ 60). change 16 with (2 ^ 4).
    rewrite <- N.shiftr_div_pow2, <- N.land_ones.
    rewrite !N.land_spec, !N.shiftr_spec by lia. unfold uuid4_of.
    repeat rewrite ?N.lor_spec, ?N.ldiff_spec.
    split.
    - generalize (N.testbit (r mod 2 ^ 128) (3 + 60)). intros x. by destruct x.
    - generalize (N.testbit (r mod 2 ^ 128) (2 + 60)). intros x. by destruct x. }
  destruct Hbits as [H3 H2]. clearbody v.
  pose proof (below_16_cases v Hlt) as Hv.
  repeat (apply elem_of_cons in Hv as [->|Hv];
          [first [by repeat constructor | by vm_compute in H3 | by vm_compute in H2]|]).
  by apply elem_of_nil in Hv.
Qed.

(** [str(uuid.uuid4())] is the canonical text of a version-4 UUID. *)
Lemma uuid4_str_canonical r : canonical_uuid4 (uuid_str (uuid4_of r)).
Proof.
  pose proof (uuid_hex_length r) as Hlen.
  pose proof (format_0x_lower 32 (uuid4_of r)) as Hlow.
  pose proof (int_of_hex_format 32 (uuid4_of r)) as Hval.
  fold (uuid_hex (uuid4_of r)) in Hlow, Hval.
  pose proof (int_of_hex_digit (uuid_hex (uuid4_of r)) 12) as Hversion.
  pose proof (int_of_hex_digit (uuid_hex (uuid4_of r)) 16) as Hvariant.
  rewrite Hval, Hlen in Hversion, Hvariant.
  pose proof (uuid4_version_digit r) as H4. pose proof (uuid4_variant_digit r) as H8.
  change (N.of_nat (32 - 13)) with 19 in Hversion.
  change (N.of_nat (32 - 17)) with 15 in Hvariant.
  unfold uuid_str. set (hex := uuid_hex (uuid4_of r)) in *.
  set (n := uuid4_of r) in *. clearbody hex n. clear Hval.
  do 32 (destruct hex as [|? hex]; [done|]). destruct hex; [|done]. clear Hlen.
  repeat match goal with
         | H : Forall _ (_ :: _) |- _ => apply Forall_cons_1 in H as [? H]
         end.
  specialize (Hversion _ eq_refl). specialize (Hvariant _ eq_refl).
  rewrite H4 in Hversion.
  match type of Hversion with
  | digit_value ?c = _ => assert (c = 0x34) as -> by (by apply (lower_hex_of_value c 4))
  end.
  split; [done|]. split; [|split; [done|]].
  - intros i c. do 36 (destruct i as [|i]; [by intros [= <-]|]). done.
  - eexists. split; [reflexivity|].
    match type of Hvariant with
    | digit_value ?c = _ =>
        rewrite <- Hvariant in H8;
        repeat (apply elem_of_cons in H8 as [H8|H8];
                [rewrite (lower_hex_of_value c _ ltac:(done) H8); by repeat constructor|]);
        by apply elem_of_nil in H8
    end.
Qed.

(** X21. The token [signin] returns is the canonical text of a
    version-4 UUID, and so unlike any [user_id], which has 24
    characters. *)
Theorem signin_token_is_uuid4 (payload : SignInRequest) (w : World) (st : Store) :
  db w = Some st ->
  exists r w',
    signin payload w = (Ok r, w') /\
    canonical_uuid4 (token r) /\
    length (user_id r) = 24%nat.
Proof.
  intros Hdb.
  destruct (signin_run payload w st Hdb) as (w' & st' & uid & Hrun & _).
  eexists _, w'. split; [exact Hrun|]. cbn [token user_id].
  split; [apply uuid4_str_canonical|apply oid_str_length].
Qed.

Lemma signin_token_is_uuid4_witness :
  exists r w',
    signin {| email := pystr "ann@example.org"; name := None |}
           (sample_world (Some empty_store)) = (Ok r, w') /\
    canonical_uuid4 (token r) /\
    length (user_id r) = 24%nat.
Proof.
  apply (signin_token_is_uuid4 {| email := pystr "ann@example.org"; name := None |}
           (sample_world (Some empty_store)) empty_store).
  reflexivity.
Defined.

(** ** The diagnostic handler *)

(** X22. [test_database] always answers, and leaves the world as it was.
    The [database] field never keeps its initial text, and is at most 74
    characters long; the connection is reported exactly when the store
    is configured, and so are the two environment variables. *)
Theorem test_database_answers (env : Deployment) (w : World) :
  exists r,
    test_database env w = (Ok r, w) /\
    database r ≠ cross_mark ++ pystr " Not Available" /\
    (length (database r) <= 74)%nat /\
    (connection_status r = pystr "Connected" <-> is_Some (db w)) /\
    (is_Some (database_url r) <-> is_Some (db w)) /\
    (is_Some (database_name r) <-> is_Some (db w)).
Proof.
  unfold test_database. eexists. split; [reflexivity|].
  destruct (db w) as [st|]; cbn.
  - destruct (list_collection_names env) as [e|names]; cbn.
    + split; [by vm_compute|]. split.
      * change (S (S (length (pystr " Connected but Error: " ++ take 50 e)))  <= 74)%nat.
        rewrite length_app, length_take. vm_compute length. lia.
      * repeat split; eauto.
    + split; [by vm_compute|]. split; [vm_compute; lia|]. repeat split; eauto.
  - split; [by vm_compute|]. split; [vm_compute; lia|].
    repeat split; try (by intros [? ?]). by vm_compute.
Qed.

(** X23. [test_database] reports at most ten collections, the first ten
    of the listing, and none unless the store is configured and the
    listing succeeded. *)
Theorem test_database_collections (env : Deployment) (w : World) :
  exists r,
    test_database env w = (Ok r, w) /\
    (length (collections r) <= 10)%nat /\
    (collections r ≠ [] ->
     is_Some (db w) /\
     exists names, list_collection_names env = inr names /\
                   collections r = take 10 names /\
                   database r = check_mark ++ pystr " Connected & Working").
Proof.
  unfold test_database. eexists. split; [reflexivity|].
  destruct (db w) as [st|]; cbn.
  - destruct (list_collection_names env) as [e|names]; cbn.
    + split; [lia|done].
    + split; [rewrite length_take; lia|]. intros _. split; [eauto|]. by exists names.
  - split; [lia|done].
Qed.
